(** * slurminade.autobatch: a shallow embedding of [AutoBatch]

    The development follows [src/slurminade/autobatch.py]:
    - Python values, their truthiness, equality and hashing;
    - dictionaries with insertion order, [HashableDict] and its [__hash__];
    - the [defaultdict(list)] of tasks, looked up by hash and equality;
    - the methods of [AutoBatch] as computations over the session object
      and the trace of calls made to the external collaborators
      (dispatcher, local function call, [print]);
    - the [with] statement around a session.

    What lives outside the file ([hash] of the builtin types,
    [_get_conf], the dispatcher's job ids) is gathered in the record
    [Collaborators], and every result holds for all of them. *)

From stdpp Require Import base list sorting strings pretty.
From Stdlib Require Import ZArith Lia.

Set Warnings "-register-all".
Open Scope Z_scope.

(** ** Python values *)

(** Option values, call arguments and job ids.  Booleans are integers in
    Python ([True == 1]) and are represented by [VInt]. *)
Inductive value :=
| VNone
| VInt (n : Z)
| VStr (s : string)
| VTuple (items : list value)
| VList (items : list value).

(** Python's [==] on these values is structural. *)
Fixpoint value_eq_dec (a b : value) : {a = b} + {a <> b}.
Proof.
  decide equality; try apply Z.eq_dec; try apply String.string_dec;
    apply (List.list_eq_dec value_eq_dec).
Defined.

#[global] Instance value_eq_decision : EqDecision value := value_eq_dec.

(** [bool(v)] *)
Definition truthy (v : value) : bool :=
  match v with
  | VNone => false
  | VInt n => negb (n =? 0)
  | VStr s => negb (String.eqb s "")
  | VTuple l => negb (Nat.eqb (length l) 0)
  | VList l => negb (Nat.eqb (length l) 0)
  end.

(** Exceptions by class: the one [add] raises with its message, the two
    the interpreter raises on the module's behalf, and any other class a
    caller's code may raise. *)
Inductive exception :=
| ValueError (msg : string)
| TypeError
| AttributeError
| OtherException (cls : string).

(** The classes an exception is an instance of (its method resolution
    order). *)
Definition exception_mro (e : exception) : list string :=
  match e with
  | ValueError _ => ["ValueError"; "Exception"; "BaseException"; "object"]
  | TypeError => ["TypeError"; "Exception"; "BaseException"; "object"]
  | AttributeError =>
      ["AttributeError"; "Exception"; "BaseException"; "object"]
  | OtherException cls => [cls; "Exception"; "BaseException"; "object"]
  end%string.

(** [isinstance(e, cls)] *)
Definition exception_isinstance (e : exception) (cls : string) : bool :=
  existsb (String.eqb cls) (exception_mro e).

(** ** Dictionaries *)

(** A [dict] with string keys: its items in insertion order.  Every
    dictionary the module handles is built by [dict_of_items], which keeps
    the keys unique. *)
Definition pydict := list (string * value).

(** [d.get(k)] *)
Fixpoint dict_get (k : string) (d : pydict) : option value :=
  match d with
  | [] => None
  | (k', v) :: d' => if String.eqb k' k then Some v else dict_get k d'
  end.

(** [d[k] = v]: an existing key keeps its position. *)
Fixpoint dict_set (k : string) (v : value) (d : pydict) : pydict :=
  match d with
  | [] => [(k, v)]
  | (k', v') :: d' =>
      if String.eqb k' k then (k', v) :: d' else (k', v') :: dict_set k v d'
  end.

(** [dict(items)] *)
Definition dict_of_items (items : list (string * value)) : pydict :=
  fold_left (fun d kv => dict_set (fst kv) (snd kv) d) items [].

(** [d1 == d2] for dictionaries: same length, and every key of [d1] is in
    [d2] with an equal value. *)
Definition dict_eq (d1 d2 : pydict) : bool :=
  Nat.eqb (length d1) (length d2) &&
  forallb (fun kv => match dict_get (fst kv) d2 with
                     | Some v' => bool_decide (snd kv = v')
                     | None => false
                     end) d1.

(** ** The collaborators' records *)

(** [slurminade.function.SlurmFunction]: the fields this module reads. *)
Record SlurmFunction := {
  func_id : string;
  special_slurm_opts : pydict
}.

(** [slurminade.dispatcher._FunctionCall(func_id, args, kwargs)] *)
Record _FunctionCall := {
  call_func_id : string;
  call_args : list value;
  call_kwargs : pydict
}.

(** What a caller may pass as [func]: a [SlurmFunction], or anything
    else. *)
Inductive py_object :=
| ObjSlurmFunction (sf : SlurmFunction)
| ObjOther (v : value).

(** Calls made to the outside, in the order they happen. *)
Inductive event :=
| DispatchBatch (calls : list _FunctionCall) (conf : pydict)
| DispatchSingle (call : _FunctionCall) (conf : pydict)
| LocalCall (fid : string) (args : list value) (kwargs : pydict)
| Print (msg : string).

(** ** Python slicing *)

(** The bound of a slice with step 1 on a sequence of length [len]: a
    negative bound counts from the end, and the result is clamped to
    [0..len]. *)
Definition slice_bound (len : Z) (i : Z) : Z :=
  if i <? 0 then Z.max 0 (i + len) else Z.min i len.

(** [l[:b]] *)
Definition slice_to {A} (l : list A) (b : Z) : list A :=
  take (Z.to_nat (slice_bound (Z.of_nat (length l)) b)) l.

(** [l[b:]] *)
Definition slice_from {A} (l : list A) (b : Z) : list A :=
  drop (Z.to_nat (slice_bound (Z.of_nat (length l)) b)) l.

(** [sep.join(parts)] *)
Fixpoint str_join (sep : string) (parts : list string) : string :=
  match parts with
  | [] => ""
  | [p] => p
  | p :: rest => p ++ sep ++ str_join sep rest
  end%string.

(** [str(j)] for an integer *)
Definition str_of_int (j : Z) : string := pretty j.

(** ** The session object and its machine *)

(** One bucket of the [defaultdict]: the key with the hash it was stored
    under, and the list it maps to. *)
Record bucket := {
  bucket_hash : Z;
  bucket_key : pydict;
  bucket_calls : list _FunctionCall
}.

(** [AutoBatch]: [_tasks] keeps its buckets in insertion order, which is
    the order [items()] yields them in. *)
Record AutoBatch := {
  max_batch_size : option Z;
  _tasks : list bucket;
  _on_completion : list (py_object * list value * pydict)
}.

(** [AutoBatch.__init__] *)
Definition __init__ (max_batch_size : option Z) : AutoBatch :=
  {| max_batch_size := max_batch_size; _tasks := []; _on_completion := [] |}.

(** The state a method runs on: the session and the trace so far. *)
Record machine := {
  self : AutoBatch;
  trace : list event
}.

(** How a computation ends: it returns, raises, or is cut off because the
    loop budget ran out. *)
Inductive outcome (A : Type) :=
| Return (a : A)
| Raise (e : exception)
| OutOfFuel.

Arguments Return {A} a.
Arguments Raise {A} e.
Arguments OutOfFuel {A}.

(** A computation: state is kept when an exception is raised. *)
Definition M (A : Type) : Type := machine -> outcome A * machine.

Definition ret {A} (a : A) : M A := fun m => (Return a, m).

Definition bind {A B} (c : M A) (k : A -> M B) : M B :=
  fun m => match c m with
           | (Return a, m') => k a m'
           | (Raise e, m') => (Raise e, m')
           | (OutOfFuel, m') => (OutOfFuel, m')
           end.

Definition raise {A} (e : exception) : M A := fun m => (Raise e, m).

Definition out_of_fuel {A} : M A := fun m => (OutOfFuel, m).

Definition get_self : M AutoBatch := fun m => (Return (self m), m).

Definition set_self (s : AutoBatch) : M unit :=
  fun m => (Return tt, {| self := s; trace := trace m |}).

Definition get_trace : M (list event) := fun m => (Return (trace m), m).

Definition emit (e : event) : M unit :=
  fun m => (Return tt, {| self := self m; trace := trace m ++ [e] |}).

Notation "x <- c ;; k" := (bind c (fun x => k))
  (at level 100, c at next level, right associativity).
Notation "c ;;; k" := (bind c (fun _ => k))
  (at level 100, right associativity).

(** [for x in l: body(x)] *)
Fixpoint for_each {A} (l : list A) (body : A -> M unit) : M unit :=
  match l with
  | [] => ret tt
  | x :: l' => body x ;;; for_each l' body
  end.

(** ** The module *)

(** What the module takes from outside: [hash] on [None], integers,
    strings and tuples of hashes; [slurminade.conf._get_conf], the
    effective options of a call; and the job id the dispatcher returns
    for a submission, given every call made so far, this submission
    included.  The dispatcher and the registered functions are taken to
    return: their own failures are not this module's. *)
Record Collaborators := {
  hash_none : Z;
  hash_int : Z -> Z;
  hash_str : string -> Z;
  hash_tuple : list Z -> Z;
  _get_conf : pydict -> list (string * value);
  job_id : list event -> Z
}.

Section AutoBatch.

Variable E : Collaborators.

(** [hash(v)]; [None] stands for the [TypeError] of an unhashable
    type.  Lists are unhashable, and so is a tuple that holds one. *)
Fixpoint py_hash (v : value) : option Z :=
  match v with
  | VNone => Some (hash_none E)
  | VInt n => Some (hash_int E n)
  | VStr s => Some (hash_str E s)
  | VTuple l =>
      option_map (hash_tuple E)
        ((fix hash_all (l : list value) : option (list Z) :=
            match l with
            | [] => Some []
            | x :: r =>
                match py_hash x with
                | Some h => option_map (cons h) (hash_all r)
                | None => None
                end
            end) l)
  | VList _ => None
  end.

(** [hash((k, v)) for k, v in self.items()] *)
Fixpoint hash_items (d : pydict) : option (list Z) :=
  match d with
  | [] => Some []
  | (k, v) :: d' =>
      match py_hash (VTuple [VStr k; v]) with
      | Some h => option_map (cons h) (hash_items d')
      | None => None
      end
  end.

(** [HashableDict(conf)] *)
Definition HashableDict (conf : list (string * value)) : pydict :=
  dict_of_items conf.

(** [HashableDict.__hash__]: the hash of the tuple of the sorted item
    hashes.  The items of that tuple are integers, hashed in their turn
    as every item of a tuple is. *)
Definition HashableDict__hash__ (d : pydict) : option Z :=
  option_map (fun hs => hash_tuple E (map (hash_int E) (merge_sort Z.le hs)))
             (hash_items d).

(** [self._tasks[key].append(call)] once [hash(key)] is known: the
    bucket with that hash and an equal key gets the call; without one,
    [defaultdict] makes a new list at the end. *)
Fixpoint tasks_append (h : Z) (key : pydict) (call : _FunctionCall)
    (tasks : list bucket) : list bucket :=
  match tasks with
  | [] => [ {| bucket_hash := h; bucket_key := key; bucket_calls := [call] |} ]
  | b :: tasks' =>
      if (bucket_hash b =? h) && dict_eq (bucket_key b) key
      then {| bucket_hash := bucket_hash b;
              bucket_key := bucket_key b;
              bucket_calls := bucket_calls b ++ [call] |} :: tasks'
      else b :: tasks_append h key call tasks'
  end.

(** [AutoBatch.add] *)
Definition add (func : py_object) (args : list value) (kwargs : pydict)
    : M unit :=
  match func with
  | ObjOther _ =>
      raise (ValueError
        "Can only batch SlurmFunctions. Use the slurmify-decorator to convert your function.")
  | ObjSlurmFunction f =>
      let call := {| call_func_id := func_id f;
                     call_args := args;
                     call_kwargs := kwargs |} in
      let conf := _get_conf E (dict_of_items (special_slurm_opts f)) in
      let key := HashableDict conf in
      match HashableDict__hash__ key with
      | None => raise TypeError
      | Some h =>
          s <- get_self ;;
          set_self {| max_batch_size := max_batch_size s;
                      _tasks := tasks_append h key call (_tasks s);
                      _on_completion := _on_completion s |}
      end
  end.

(** [AutoBatch.on_completion] *)
Definition on_completion (func : py_object) (args : list value)
    (kwargs : pydict) : M unit :=
  s <- get_self ;;
  set_self {| max_batch_size := max_batch_size s;
              _tasks := _tasks s;
              _on_completion := _on_completion s ++ [(func, args, kwargs)] |}.

(** [self._tasks.clear()] *)
Definition clear_tasks : M unit :=
  s <- get_self ;;
  set_self {| max_batch_size := max_batch_size s;
              _tasks := [];
              _on_completion := _on_completion s |}.

(** [SlurmFunction.call] on the recorded id and arguments of [call]. *)
Definition SlurmFunction_call (call : _FunctionCall) : M unit :=
  emit (LocalCall (call_func_id call) (call_args call) (call_kwargs call)).

(** [SlurmFunction.dispatcher.dispatch_batch_to_slurm(calls, conf)] *)
Definition dispatch_batch_to_slurm (calls : list _FunctionCall)
    (conf : pydict) : M Z :=
  emit (DispatchBatch calls conf) ;;;
  tr <- get_trace ;;
  ret (job_id E tr).

(** [SlurmFunction.dispatcher.dispatch_to_slurm(call, conf)] *)
Definition dispatch_to_slurm (call : _FunctionCall) (conf : pydict) : M Z :=
  emit (DispatchSingle call conf) ;;;
  tr <- get_trace ;;
  ret (job_id E tr).

(** [AutoBatch.run_locally] *)
Definition run_locally : M unit :=
  s <- get_self ;;
  for_each (_tasks s) (fun b =>
    for_each (bucket_calls b) SlurmFunction_call) ;;;
  clear_tasks.

(** [dep += s]: strings concatenate, a list is extended by the characters
    of [s], the other types raise.  For a list the interpreter extends
    the list object the function's options hold, so the options have
    changed when the statement is done; [SlurmFunction] records here are
    values, and that change of the options is not represented.  What is
    stated below about the completion list after [distribute] is stated
    for functions whose [dependency] option is a string or absent, where
    nothing is shared. *)
Definition iadd_str (dep : value) (s : string) : M value :=
  match dep with
  | VStr d => ret (VStr (d ++ s))
  | VList l =>
      ret (VList (l ++ map (fun c => VStr (String c EmptyString))
                           (String.list_ascii_of_string s)))
  | _ => raise TypeError
  end.

(** ["afterany:" + ":".join(str(j) for j in job_ids)] *)
Definition afterany (job_ids : list Z) : string :=
  ("afterany:" ++ str_join ":" (map str_of_int job_ids))%string.

(** The body of the loop of [_add_on_completion_tasks], for one entry
    [(sfunc, args, kwargs)]. *)
Definition completion_task (job_ids : list Z)
    (entry : py_object * list value * pydict) : M unit :=
  let '(sfunc, args, kwargs) := entry in
  match sfunc with
  | ObjOther _ => raise AttributeError
  | ObjSlurmFunction sf =>
      let dep := match dict_get "dependency" (special_slurm_opts sf) with
                 | Some v => v
                 | None => VStr ""
                 end in
      dep' <- (if truthy dep
               then iadd_str dep ("," ++ afterany job_ids)
               else ret (VStr (afterany job_ids))) ;;
      dispatch_to_slurm
        {| call_func_id := func_id sf;
           call_args := args;
           call_kwargs := kwargs |}
        [("dependency"%string, dep')] ;;;
      ret tt
  end.

(** [AutoBatch._add_on_completion_tasks] *)
Definition _add_on_completion_tasks (job_ids : list Z) : M unit :=
  s <- get_self ;;
  for_each (_on_completion s) (completion_task job_ids).

(** The [while calls:] loop of [distribute] for one bucket; [fuel] bounds
    the number of iterations. *)
Fixpoint distribute_chunks (fuel : nat) (size : Z) (conf : pydict)
    (calls : list _FunctionCall) (job_ids : list Z) : M (list Z) :=
  match calls with
  | [] => ret job_ids
  | _ :: _ =>
      match fuel with
      | O => out_of_fuel
      | S fuel' =>
          jid <- dispatch_batch_to_slurm (slice_to calls size) conf ;;
          distribute_chunks fuel' size conf (slice_from calls size)
            (job_ids ++ [jid])
      end
  end.

(** The two [for conf, calls in self._tasks.items()] loops of
    [distribute]; [job_ids] is the local list they append to. *)
Fixpoint distribute_whole (tasks : list bucket) (job_ids : list Z)
    : M (list Z) :=
  match tasks with
  | [] => ret job_ids
  | b :: tasks' =>
      jid <- dispatch_batch_to_slurm (bucket_calls b) (bucket_key b) ;;
      distribute_whole tasks' (job_ids ++ [jid])
  end.

Fixpoint distribute_bounded (fuel : nat) (size : Z) (tasks : list bucket)
    (job_ids : list Z) : M (list Z) :=
  match tasks with
  | [] => ret job_ids
  | b :: tasks' =>
      job_ids' <- distribute_chunks fuel size (bucket_key b)
                    (bucket_calls b) job_ids ;;
      distribute_bounded fuel size tasks' job_ids'
  end.

(** [AutoBatch.distribute] *)
Definition distribute (fuel : nat) : M (list Z) :=
  s <- get_self ;;
  job_ids <- match max_batch_size s with
             | None => distribute_whole (_tasks s) []
             | Some size => distribute_bounded fuel size (_tasks s) []
             end ;;
  clear_tasks ;;;
  _add_on_completion_tasks job_ids ;;;
  ret job_ids.

(** [not shutil.which("sbatch")]: [which] returns a path or [None]. *)
Definition no_sbatch (which_sbatch : option string) : bool :=
  match which_sbatch with
  | None => true
  | Some path => String.eqb path ""
  end.

(** [AutoBatch.__exit__]; [exc_type] is [None] when the block ended
    normally.  Every path returns [None]. *)
Definition __exit__ (fuel : nat) (which_sbatch : option string)
    (exc_type : option exception) : M value :=
  match exc_type with
  | Some _ =>
      emit (Print "Aborted due to exception.") ;;;
      ret VNone
  | None =>
      if no_sbatch which_sbatch
      then emit (Print "No Slurm environment available. Running batch locally.") ;;;
           run_locally ;;;
           ret VNone
      else distribute fuel ;;;
           ret VNone
  end.

(** [with AutoBatch(max_batch_size) as batch: body]: the block runs on
    the new session; [__exit__] is then called with the exception the
    block raised, if any, and that exception is raised again unless
    [__exit__] returned a true value. *)
Definition with_AutoBatch (fuel : nat) (which_sbatch : option string)
    (size : option Z) (body : M unit) (tr : list event)
    : outcome unit * machine :=
  let m0 := {| self := __init__ size; trace := tr |} in
  match body m0 with
  | (Return _, m1) =>
      (__exit__ fuel which_sbatch None ;;; ret tt) m1
  | (Raise e, m1) =>
      match __exit__ fuel which_sbatch (Some e) m1 with
      | (Return r, m2) =>
          if truthy r then (Return tt, m2) else (Raise e, m2)
      | (Raise e', m2) => (Raise e', m2)
      | (OutOfFuel, m2) => (OutOfFuel, m2)
      end
  | (OutOfFuel, m1) => (OutOfFuel, m1)
  end.

End AutoBatch.

(** ** Requests *)

(** One [add] request: the function, its positional and keyword
    arguments. *)
Definition request : Type := SlurmFunction * list value * pydict.

Definition request_call (r : request) : _FunctionCall :=
  {| call_func_id := func_id (fst (fst r));
     call_args := snd (fst r);
     call_kwargs := snd r |}.

(** The completion entry [on_completion] stores for a request. *)
Definition completion_entry (r : request) : py_object * list value * pydict :=
  (ObjSlurmFunction (fst (fst r)), snd (fst r), snd r).

(** ** A concrete environment and sessions to run the module on *)

Module Sample.

(** A small stand-in for the interpreter's string hash. *)
Definition hash_string (s : string) : Z :=
  fold_left (fun h c => (h * 31 + Z.of_nat (Ascii.nat_of_ascii c)) mod 1000003)
            (String.list_ascii_of_string s) 7.

(** Tuples combine the hashes of their items in order. *)
Definition hash_items_tuple (hs : list Z) : Z :=
  fold_left (fun h x => (h * 1000003 + x) mod 2305843009213693951) hs 3430008.

(** No defaults are merged in, and job ids count the calls made so
    far. *)
Definition env : Collaborators :=
  {| hash_none := 4238894112;
     hash_int := fun n => n;
     hash_str := hash_string;
     hash_tuple := hash_items_tuple;
     _get_conf := fun opts => opts;
     job_id := fun tr => 100 + Z.of_nat (length tr) |}.

Definition f_small : SlurmFunction :=
  {| func_id := "f"; special_slurm_opts := [("cpus", VInt 2); ("partition", VStr "short")] |}%string.

(** The same options as [f_small], declared in the other order. *)
Definition f_small' : SlurmFunction :=
  {| func_id := "f2"; special_slurm_opts := [("partition", VStr "short"); ("cpus", VInt 2)] |}%string.

Definition g_big : SlurmFunction :=
  {| func_id := "g"; special_slurm_opts := [("cpus", VInt 8)] |}%string.

(** An option whose value is a list. *)
Definition h_list : SlurmFunction :=
  {| func_id := "h"; special_slurm_opts := [("nodelist", VList [VStr "n1"; VStr "n2"])] |}%string.

(** A function that already waits for job 5. *)
Definition after5 : SlurmFunction :=
  {| func_id := "collect"; special_slurm_opts := [("dependency", VStr "afterok:5")] |}%string.

Definition start (size : option Z) : machine :=
  {| self := __init__ size; trace := [] |}.

(** The machine after [c], whatever its outcome. *)
Definition after {A} (c : M A) (m : machine) : machine := snd (c m).

(** Five calls of [f_small], then nothing else. *)
Definition five_calls : M unit :=
  add env (ObjSlurmFunction f_small) [VInt 1] [] ;;;
  add env (ObjSlurmFunction f_small) [VInt 2] [] ;;;
  add env (ObjSlurmFunction f_small) [VInt 3] [] ;;;
  add env (ObjSlurmFunction f_small) [VInt 4] [] ;;;
  add env (ObjSlurmFunction f_small) [VInt 5] [].

(** Calls under two configurations, and one completion entry. *)
Definition mixed_calls : M unit :=
  add env (ObjSlurmFunction f_small) [VInt 1] [] ;;;
  add env (ObjSlurmFunction g_big) [VInt 2] [] ;;;
  add env (ObjSlurmFunction f_small') [VInt 3] [] ;;;
  on_completion (ObjSlurmFunction after5) [VStr "done"] [].

(** The session after five calls under one configuration. *)
Definition five_session (size : option Z) : AutoBatch :=
  self (after five_calls (start size)).

(** The machine after [mixed_calls], before the block is left. *)
Definition mixed_machine : machine := after mixed_calls (start None).

(** A block that fails after its calls. *)
Definition failing_body : M unit :=
  five_calls ;;; raise (OtherException "RuntimeError").

(** Three requests, the first and the last under equal options. *)
Definition three_requests : list request :=
  [(f_small, [VInt 1], []); (g_big, [VInt 2], []); (f_small', [VInt 3], [])].

(** The groups after [three_requests]: the invocations of [f] and [f2]
    share the first, the one of [g] has the second to itself. *)
Definition three_groups : list bucket :=
  [ {| bucket_hash := 1016387834985645608;
       bucket_key := [("cpus", VInt 2); ("partition", VStr "short")];
       bucket_calls :=
         [ {| call_func_id := "f"; call_args := [VInt 1]; call_kwargs := [] |};
           {| call_func_id := "f2"; call_args := [VInt 3]; call_kwargs := [] |} ] |};
    {| bucket_hash := 1124189526188042062;
       bucket_key := [("cpus", VInt 8)];
       bucket_calls :=
         [ {| call_func_id := "g"; call_args := [VInt 2]; call_kwargs := [] |} ] |} ]%string.

(** Two completion entries, one with a dependency of its own. *)
Definition completion_requests : list request :=
  [(after5, [VStr "done"], []); (g_big, [], [])].

Definition completion_machine : machine :=
  {| self := {| max_batch_size := None;
                _tasks := [];
                _on_completion := map completion_entry completion_requests |};
     trace := [] |}.

(** The completion entry of [mixed_calls], as a request. *)
Definition done_requests : list request := [(after5, [VStr "done"], [])].

(** [mixed_calls], then a completion entry that is no [SlurmFunction]. *)
Definition invalid_completion_machine : machine :=
  after (mixed_calls ;;; on_completion (ObjOther (VInt 7)) [] [])
        (start None).

(** A function whose [dependency] option is the integer zero. *)
Definition zero_dep : SlurmFunction :=
  {| func_id := "z"; special_slurm_opts := [("dependency", VInt 0)] |}%string.

End Sample.

(** ** Reading a trace and a session *)

(** The batch jobs a trace submitted, in order. *)
Fixpoint submitted_batches (tr : list event)
    : list (list _FunctionCall * pydict) :=
  match tr with
  | [] => []
  | DispatchBatch calls conf :: tr' => (calls, conf) :: submitted_batches tr'
  | _ :: tr' => submitted_batches tr'
  end.

(** The single-call jobs a trace submitted, in order. *)
Fixpoint submitted_singles (tr : list event)
    : list (_FunctionCall * pydict) :=
  match tr with
  | [] => []
  | DispatchSingle call conf :: tr' => (call, conf) :: submitted_singles tr'
  | _ :: tr' => submitted_singles tr'
  end.

(** The calls a trace ran in this process, in order. *)
Fixpoint local_calls (tr : list event) : list _FunctionCall :=
  match tr with
  | [] => []
  | LocalCall fid args kwargs :: tr' =>
      {| call_func_id := fid; call_args := args; call_kwargs := kwargs |}
      :: local_calls tr'
  | _ :: tr' => local_calls tr'
  end.

(** The event of running [call] in this process. *)
Definition local_call_event (call : _FunctionCall) : event :=
  LocalCall (call_func_id call) (call_args call) (call_kwargs call).

(** Every invocation a session holds, group after group. *)
Definition accumulated (s : AutoBatch) : list _FunctionCall :=
  concat (map bucket_calls (_tasks s)).

(** [chunks] cuts [calls] into consecutive non-empty pieces of at most
    [size] items, all of them full but possibly the last. *)
Definition chunking {A} (size : Z) (calls : list A) (chunks : list (list A))
    : Prop :=
  concat chunks = calls /\
  Forall (fun c => c <> [] /\ Z.of_nat (length c) <= size) chunks /\
  forall i c, chunks !! i = Some c -> (S i < length chunks)%nat ->
              Z.of_nat (length c) = size.

(** A session with [_tasks] replaced. *)
Definition with_tasks (s : AutoBatch) (tasks : list bucket) : AutoBatch :=
  {| max_batch_size := max_batch_size s;
     _tasks := tasks;
     _on_completion := _on_completion s |}.

(** The grouping key [add] builds for a function. *)
Definition conf_key (E : Collaborators) (sf : SlurmFunction) : pydict :=
  HashableDict (_get_conf E (dict_of_items (special_slurm_opts sf))).

(** One [add] per request, in order. *)
Definition add_all (E : Collaborators) (requests : list request) : M unit :=
  for_each requests (fun r =>
    add E (ObjSlurmFunction (fst (fst r))) (snd (fst r)) (snd r)).

(** An event that is the submission of a batch job. *)
Definition is_batch (e : event) : Prop :=
  match e with DispatchBatch _ _ => True | _ => False end.

(** An event that is the submission of a single-call job. *)
Definition is_single (e : event) : Prop :=
  match e with DispatchSingle _ _ => True | _ => False end.

(** The item hashes of two orderings of the same items are orderings of
    the same hashes, and one ordering fails exactly when the other
    does. *)
Definition same_item_hashes (h1 h2 : option (list Z)) : Prop :=
  match h1, h2 with
  | Some a, Some b => a ≡ₚ b
  | None, None => True
  | _, _ => False
  end.

(** The [dependency] option of a function is absent or a string. *)
Definition plain_dependency (sf : SlurmFunction) : Prop :=
  dict_get "dependency" (special_slurm_opts sf) = None \/
  exists d, dict_get "dependency" (special_slurm_opts sf) = Some (VStr d).

(** [dep] is the dependency expression that goes with the function [sf]
    once the jobs [job_ids] are known: the clause [sf] already has, a
    comma, and [afterany] over the ids joined by colons; without a clause
    (or with an empty one), the [afterany] part alone. *)
Definition composed_dependency (job_ids : list Z) (sf : SlurmFunction)
    (dep : string) : Prop :=
  (forall d, dict_get "dependency" (special_slurm_opts sf) = Some (VStr d) ->
             d <> ""%string ->
             dep = (d ++ "," ++ "afterany:"
                      ++ str_join ":" (map str_of_int job_ids))%string) /\
  (dict_get "dependency" (special_slurm_opts sf) = None \/
   dict_get "dependency" (special_slurm_opts sf) = Some (VStr "") ->
   dep = ("afterany:" ++ str_join ":" (map str_of_int job_ids))%string).

(** The key [add] files a request under. *)
Definition key_of (E : Collaborators) (r : request) : pydict :=
  conf_key E (fst (fst r)).

(** A bucket does not take the key [k] hashed to [h]. *)
Definition passes (h : Z) (k : pydict) (b : bucket) : Prop :=
  (bucket_hash b =? h) && dict_eq (bucket_key b) k = false.

(** What holds of a bucket after the requests [reqs]: its key is the key
    of one of them, it is stored under the hash of its key, and it holds
    the calls of exactly the requests with an equal key, in order. *)
Definition bucket_ok (E : Collaborators) (reqs : list request) (b : bucket)
    : Prop :=
  (exists r, In r reqs /\ bucket_key b = key_of E r) /\
  HashableDict__hash__ E (bucket_key b) = Some (bucket_hash b) /\
  bucket_calls b
  = map request_call
      (List.filter (fun r => dict_eq (bucket_key b) (key_of E r)) reqs).

(** No two buckets have equal keys. *)
Inductive distinct_keys : list bucket -> Prop :=
| distinct_nil : distinct_keys []
| distinct_cons b tasks :
    Forall (fun c => dict_eq (bucket_key b) (bucket_key c) = false) tasks ->
    distinct_keys tasks ->
    distinct_keys (b :: tasks).

(** The state of [_tasks] after the requests [reqs]. *)
Definition grouped (E : Collaborators) (reqs : list request)
    (tasks : list bucket) : Prop :=
  Forall (bucket_ok E reqs) tasks /\
  distinct_keys tasks /\
  (forall r, In r reqs ->
     exists b, In b tasks /\ dict_eq (bucket_key b) (key_of E r) = true).

(** The ids the dispatcher hands back for the submissions [evs], made one
    after the other on top of the trace [tr]. *)
Fixpoint assigned_ids (E : Collaborators) (tr : list event)
    (evs : list event) : list Z :=
  match evs with
  | [] => []
  | e :: evs' => job_id E (tr ++ [e]) :: assigned_ids E (tr ++ [e]) evs'
  end.

(** The number of chunks of at most [size] items that [n] items fill. *)
Definition jobs_for (size : Z) (n : nat) : Z :=
  (Z.of_nat n + size - 1) / size.

(** A session with another bound. *)
Definition with_bound (s : AutoBatch) (size : option Z) : AutoBatch :=
  {| max_batch_size := size;
     _tasks := _tasks s;
     _on_completion := _on_completion s |}.

(** The invocations of the batch jobs a trace submitted, job after job. *)
Definition batch_calls (tr : list event) : list _FunctionCall :=
  concat (map fst (submitted_batches tr)).

(** A batch job made for one of [tasks]: it runs under the key of a group
    and holds invocations of that group only. *)
Definition batch_within (tasks : list bucket)
    (job : list _FunctionCall * pydict) : Prop :=
  exists b, In b tasks /\ snd job = bucket_key b /\
            Forall (fun c => In c (bucket_calls b)) (fst job).

(** One [on_completion] per request, in order. *)
Definition register_all (requests : list request) : M unit :=
  for_each requests (fun r =>
    on_completion (ObjSlurmFunction (fst (fst r))) (snd (fst r)) (snd r)).

(** The effective configuration of a function: what [add] gets from
    [_get_conf] on a copy of the options, before it wraps it in a
    [HashableDict]. *)
Definition conf_of (E : Collaborators) (sf : SlurmFunction)
    : list (string * value) :=
  _get_conf E (dict_of_items (special_slurm_opts sf)).

(** Two configurations hold the same key/value pairs, in whatever order.
    This is equality of configurations as the specification words it; it
    is stated on the items alone and owes nothing to [HashableDict],
    [dict_eq] or the hash. *)
Definition same_items (c1 c2 : list (string * value)) : Prop :=
  forall k v, In (k, v) c1 <-> In (k, v) c2.

(** [same_items], decided. *)
Definition same_itemsb (c1 c2 : list (string * value)) : bool :=
  forallb (fun kv => bool_decide (kv ∈ c2)) c1 &&
  forallb (fun kv => bool_decide (kv ∈ c1)) c2.

(** * Properties *)

(** ** Slices *)

Lemma slice_to_from {A} (l : list A) (b : Z) :
  slice_to l b ++ slice_from l b = l.
Proof. unfold slice_to, slice_from. apply take_drop. Qed.

Lemma slice_bound_pos (len b : Z) :
  0 <= len -> 1 <= b -> slice_bound len b = Z.min b len.
Proof.
  intros Hlen Hb. unfold slice_bound.
  destruct (Z.ltb_spec b 0); [lia | reflexivity].
Qed.

Lemma slice_to_length {A} (l : list A) (b : Z) :
  1 <= b -> Z.of_nat (length (slice_to l b)) = Z.min b (Z.of_nat (length l)).
Proof.
  intros Hb. unfold slice_to.
  rewrite slice_bound_pos by lia. rewrite length_take. lia.
Qed.

Lemma slice_from_length {A} (l : list A) (b : Z) :
  1 <= b ->
  Z.of_nat (length (slice_from l b)) = Z.of_nat (length l) - Z.min b (Z.of_nat (length l)).
Proof.
  intros Hb. unfold slice_from.
  rewrite slice_bound_pos by lia. rewrite length_drop. lia.
Qed.

Lemma slice_from_shrinks {A} (l : list A) (b : Z) :
  1 <= b -> l <> [] -> (length (slice_from l b) < length l)%nat.
Proof.
  intros Hb Hl. pose proof (slice_from_length l b Hb) as H.
  destruct l as [|x l]; [congruence|]. simpl length in *. lia.
Qed.

Lemma slice_to_nonempty {A} (l : list A) (b : Z) :
  1 <= b -> l <> [] -> slice_to l b <> [].
Proof.
  intros Hb Hl Hnil. pose proof (slice_to_length l b Hb) as H.
  rewrite Hnil in H. destruct l as [|x l]; [congruence|].
  simpl length in *. lia.
Qed.

Lemma slice_from_zero {A} (l : list A) : slice_from l 0 = l.
Proof.
  unfold slice_from, slice_bound. simpl.
  rewrite Z.min_l by lia. reflexivity.
Qed.

Lemma slice_to_zero {A} (l : list A) : slice_to l 0 = [].
Proof.
  unfold slice_to, slice_bound. simpl.
  rewrite Z.min_l by lia. reflexivity.
Qed.

(** ** Traces *)

Lemma submitted_batches_app (tr1 tr2 : list event) :
  submitted_batches (tr1 ++ tr2) = submitted_batches tr1 ++ submitted_batches tr2.
Proof.
  induction tr1 as [|e tr1 IH]; [reflexivity|].
  destruct e; simpl; rewrite IH; reflexivity.
Qed.

Lemma submitted_singles_app (tr1 tr2 : list event) :
  submitted_singles (tr1 ++ tr2) = submitted_singles tr1 ++ submitted_singles tr2.
Proof.
  induction tr1 as [|e tr1 IH]; [reflexivity|].
  destruct e; simpl; rewrite IH; reflexivity.
Qed.

Lemma local_calls_app (tr1 tr2 : list event) :
  local_calls (tr1 ++ tr2) = local_calls tr1 ++ local_calls tr2.
Proof.
  induction tr1 as [|e tr1 IH]; [reflexivity|].
  destruct e; simpl; rewrite IH; reflexivity.
Qed.

Lemma local_calls_local_events (calls : list _FunctionCall) :
  local_calls (map local_call_event calls) = calls.
Proof.
  induction calls as [|[fid args kw] calls IH]; [reflexivity|].
  simpl. rewrite IH. reflexivity.
Qed.

Lemma submitted_batches_batch_events (conf : pydict)
    (chunks : list (list _FunctionCall)) :
  submitted_batches (map (fun c => DispatchBatch c conf) chunks)
  = map (fun c => (c, conf)) chunks.
Proof.
  induction chunks as [|c chunks IH]; [reflexivity|].
  simpl. rewrite IH. reflexivity.
Qed.

(** ** Chunks *)

Lemma chunking_nil {A} (size : Z) : chunking size (@nil A) [].
Proof.
  split; [reflexivity|]. split; [constructor|].
  intros i c H. rewrite lookup_nil in H. discriminate.
Qed.

Lemma chunking_cons {A} (size : Z) (calls : list A) (rest : list (list A)) :
  1 <= size -> calls <> [] ->
  chunking size (slice_from calls size) rest ->
  chunking size calls (slice_to calls size :: rest).
Proof.
  intros Hsize Hne (Hcat & Hall & Hfull).
  split; [|split].
  - simpl. rewrite Hcat. apply slice_to_from.
  - constructor; [|exact Hall]. split.
    + apply slice_to_nonempty; assumption.
    + rewrite slice_to_length by assumption. lia.
  - intros [|i] c Hi Hlt; simpl in *.
    + inversion Hi; subst c. clear Hi.
      rewrite slice_to_length by assumption.
      destruct rest as [|c' rest']; [simpl in Hlt; lia|].
      assert (Hc' : slice_from calls size <> []).
      { rewrite <- Hcat. simpl. inversion Hall as [|? ? [Hc'ne _] _]; subst.
        destruct c'; [congruence | discriminate]. }
      pose proof (slice_from_length calls size Hsize) as Hlen.
      destruct (slice_from calls size) eqn:Hs; [congruence|].
      simpl length in Hlen. lia.
    + apply (Hfull i c Hi). lia.
Qed.

Section Properties.

Variable E : Collaborators.

(** *** The chunk loop *)

Lemma distribute_chunks_runs (size : Z) (conf : pydict) :
  1 <= size ->
  forall (fuel : nat) (calls : list _FunctionCall) (job_ids : list Z)
         (m : machine),
    (length calls <= fuel)%nat ->
    exists chunks new_ids,
      chunking size calls chunks /\
      length new_ids = length chunks /\
      distribute_chunks E fuel size conf calls job_ids m
      = (Return (job_ids ++ new_ids),
         {| self := self m;
            trace := trace m ++ map (fun c => DispatchBatch c conf) chunks |}).
Proof.
  intros Hsize fuel.
  induction fuel as [|fuel IH]; intros calls job_ids m Hfuel.
  - destruct calls as [|c calls]; [|simpl in Hfuel; lia].
    exists [], []. split; [apply chunking_nil|]. split; [reflexivity|].
    simpl. unfold ret. rewrite !app_nil_r. destruct m; reflexivity.
  - destruct calls as [|c calls].
    + exists [], []. split; [apply chunking_nil|]. split; [reflexivity|].
      simpl. unfold ret. rewrite !app_nil_r. destruct m; reflexivity.
    + set (cs := c :: calls) in *.
      assert (Hne : cs <> []) by discriminate.
      pose proof (slice_from_shrinks cs size Hsize Hne) as Hshrink.
      set (m1 := {| self := self m;
                    trace := trace m ++ [DispatchBatch (slice_to cs size) conf] |}).
      destruct (IH (slice_from cs size)
                   (job_ids ++ [job_id E (trace m1)]) m1)
        as (chunks & ids & Hch & Hlen & Hrun); [lia|].
      exists (slice_to cs size :: chunks), (job_id E (trace m1) :: ids).
      split; [apply chunking_cons; assumption|].
      split; [simpl; congruence|].
      change (distribute_chunks E (S fuel) size conf cs job_ids m)
        with ((jid <- dispatch_batch_to_slurm E (slice_to cs size) conf ;;
               distribute_chunks E fuel size conf (slice_from cs size)
                 (job_ids ++ [jid])) m).
      unfold bind at 1. unfold dispatch_batch_to_slurm.
      unfold bind, emit, get_trace, ret. simpl.
      subst m1. simpl in Hrun. rewrite Hrun.
      rewrite <- !app_assoc. reflexivity.
Qed.

Lemma distribute_chunks_nil (fuel : nat) (size : Z) (conf : pydict)
    (job_ids : list Z) (m : machine) :
  distribute_chunks E fuel size conf [] job_ids m = (Return job_ids, m).
Proof. destruct fuel; reflexivity. Qed.

Lemma distribute_chunks_step (fuel : nat) (size : Z) (conf : pydict)
    (c : _FunctionCall) (calls : list _FunctionCall) (job_ids : list Z)
    (m : machine) :
  distribute_chunks E (S fuel) size conf (c :: calls) job_ids m
  = distribute_chunks E fuel size conf (slice_from (c :: calls) size)
      (job_ids ++
       [job_id E (trace m ++ [DispatchBatch (slice_to (c :: calls) size) conf])])
      {| self := self m;
         trace := trace m ++ [DispatchBatch (slice_to (c :: calls) size) conf] |}.
Proof. reflexivity. Qed.

(** With a bound of zero the loop makes no progress on a non-empty list:
    it stops only when the budget does. *)
Lemma distribute_chunks_zero (conf : pydict) (fuel : nat)
    (calls : list _FunctionCall) (job_ids : list Z) (m : machine) :
  calls <> [] ->
  fst (distribute_chunks E fuel 0 conf calls job_ids m) = OutOfFuel.
Proof.
  revert job_ids m.
  induction fuel as [|fuel IH]; intros job_ids m Hne;
    (destruct calls as [|c calls]; [congruence|]).
  - reflexivity.
  - set (cs := c :: calls) in *.
    change (distribute_chunks E (S fuel) 0 conf cs job_ids m)
      with ((jid <- dispatch_batch_to_slurm E (slice_to cs 0) conf ;;
             distribute_chunks E fuel 0 conf (slice_from cs 0)
               (job_ids ++ [jid])) m).
    unfold bind at 1. unfold dispatch_batch_to_slurm.
    unfold bind, emit, get_trace, ret. simpl.
    rewrite slice_from_zero. apply IH. assumption.
Qed.

(** *** Loops over the groups *)

Lemma distribute_bounded_runs (size : Z) (fuel : nat) :
  1 <= size ->
  forall (tasks : list bucket) (job_ids : list Z) (m : machine),
    Forall (fun b => (length (bucket_calls b) <= fuel)%nat) tasks ->
    exists chunkss new_ids,
      Forall2 (fun b chunks => chunking size (bucket_calls b) chunks)
              tasks chunkss /\
      length new_ids = length (concat chunkss) /\
      distribute_bounded E fuel size tasks job_ids m
      = (Return (job_ids ++ new_ids),
         {| self := self m;
            trace := trace m ++
              concat (zip_with
                (fun b chunks => map (fun c => DispatchBatch c (bucket_key b)) chunks)
                tasks chunkss) |}).
Proof.
  intros Hsize tasks.
  induction tasks as [|b tasks IH]; intros job_ids m Hfuel.
  - exists [], []. split; [constructor|]. split; [reflexivity|].
    simpl. unfold ret. rewrite !app_nil_r. destruct m; reflexivity.
  - inversion Hfuel as [|? ? Hb Htasks]; subst.
    destruct (distribute_chunks_runs size (bucket_key b) Hsize fuel
                (bucket_calls b) job_ids m Hb)
      as (chunks & ids1 & Hch & Hlen1 & Hrun1).
    destruct (IH (job_ids ++ ids1)
                {| self := self m;
                   trace := trace m ++
                     map (fun c => DispatchBatch c (bucket_key b)) chunks |}
                Htasks)
      as (chunkss & ids2 & Hchs & Hlen2 & Hrun2).
    exists (chunks :: chunkss), (ids1 ++ ids2).
    split; [constructor; assumption|].
    split; [simpl; rewrite !length_app; congruence|].
    simpl. unfold bind. rewrite Hrun1. rewrite Hrun2. simpl.
    rewrite <- !app_assoc. reflexivity.
Qed.

Lemma distribute_whole_runs (tasks : list bucket) :
  forall (job_ids : list Z) (m : machine),
    exists new_ids,
      length new_ids = length tasks /\
      distribute_whole E tasks job_ids m
      = (Return (job_ids ++ new_ids),
         {| self := self m;
            trace := trace m ++
              map (fun b => DispatchBatch (bucket_calls b) (bucket_key b)) tasks |}).
Proof.
  induction tasks as [|b tasks IH]; intros job_ids m.
  - exists []. split; [reflexivity|].
    simpl. unfold ret. rewrite !app_nil_r. destruct m; reflexivity.
  - set (m1 := {| self := self m;
                  trace := trace m ++
                    [DispatchBatch (bucket_calls b) (bucket_key b)] |}).
    destruct (IH (job_ids ++ [job_id E (trace m1)]) m1) as (ids & Hlen & Hrun).
    exists (job_id E (trace m1) :: ids).
    split; [simpl; congruence|].
    simpl. unfold bind at 1. unfold dispatch_batch_to_slurm.
    unfold bind, emit, get_trace, ret. simpl.
    subst m1. simpl in Hrun. rewrite Hrun.
    rewrite <- !app_assoc. reflexivity.
Qed.

(** A bucket that is not empty keeps the loop with bound zero from
    ending. *)
Lemma distribute_bounded_zero (fuel : nat) (tasks : list bucket) :
  forall (job_ids : list Z) (m : machine),
    Exists (fun b => bucket_calls b <> []) tasks ->
    fst (distribute_bounded E fuel 0 tasks job_ids m) = OutOfFuel.
Proof.
  induction tasks as [|b tasks IH]; intros job_ids m Hex.
  - inversion Hex.
  - simpl. unfold bind.
    destruct (bucket_calls b) as [|c calls] eqn:Hcalls.
    + rewrite distribute_chunks_nil. apply IH.
      inversion Hex as [? ? Hb|? ? Hrest]; subst; [congruence | assumption].
    + pose proof (distribute_chunks_zero (bucket_key b) fuel (c :: calls)
                    job_ids m ltac:(discriminate)) as Hzero.
      destruct (distribute_chunks E fuel 0 (bucket_key b) (c :: calls) job_ids m)
        as [[ids|e|] m1]; simpl in Hzero; try discriminate.
      reflexivity.
Qed.

(** *** Loops that only talk to the outside *)

(** A loop whose body leaves the session alone and only adds events of
    one kind does the same as a whole, and cannot run out of budget. *)
Lemma for_each_events {A} (P : event -> Prop) (body : A -> M unit) :
  (forall x m, exists r evs,
      body x m = (r, {| self := self m; trace := trace m ++ evs |}) /\
      Forall P evs /\ r <> OutOfFuel) ->
  forall (l : list A) (m : machine),
    exists r evs,
      for_each l body m = (r, {| self := self m; trace := trace m ++ evs |}) /\
      Forall P evs /\ r <> OutOfFuel.
Proof.
  intros Hbody l.
  induction l as [|x l IH]; intros m.
  - exists (Return tt), []. split; [|split; [constructor | discriminate]].
    simpl. unfold ret. rewrite app_nil_r. destruct m; reflexivity.
  - destruct (Hbody x m) as (r1 & evs1 & Hrun1 & HP1 & Hr1).
    simpl. unfold bind. rewrite Hrun1.
    destruct r1 as [[]|e|].
    + destruct (IH {| self := self m; trace := trace m ++ evs1 |})
        as (r2 & evs2 & Hrun2 & HP2 & Hr2).
      exists r2, (evs1 ++ evs2). rewrite Hrun2. simpl.
      rewrite <- app_assoc. split; [reflexivity|].
      split; [apply Forall_app; split; assumption | assumption].
    + exists (Raise e), evs1. split; [reflexivity|].
      split; [assumption | discriminate].
    + congruence.
Qed.

Lemma singles_no_batches (evs : list event) :
  Forall is_single evs -> submitted_batches evs = [].
Proof.
  induction 1 as [|e evs He _ IH]; [reflexivity|].
  destruct e; simpl in *; try contradiction. assumption.
Qed.

Lemma singles_no_local_calls (evs : list event) :
  Forall is_single evs -> local_calls evs = [].
Proof.
  induction 1 as [|e evs He _ IH]; [reflexivity|].
  destruct e; simpl in *; try contradiction. assumption.
Qed.

Lemma completion_task_events (job_ids : list Z)
    (entry : py_object * list value * pydict) (m : machine) :
  exists r evs,
    completion_task E job_ids entry m
    = (r, {| self := self m; trace := trace m ++ evs |}) /\
    Forall is_single evs /\ r <> OutOfFuel.
Proof.
  destruct entry as [[[sf|v] args] kwargs]; simpl.
  - set (dep := match dict_get "dependency" (special_slurm_opts sf) with
                | Some v => v
                | None => VStr ""
                end).
    unfold bind at 1.
    assert (Hdep : (exists d, (if truthy dep
                               then iadd_str dep ("," ++ afterany job_ids)
                               else ret (VStr (afterany job_ids))) m
                              = (Return d, m)) \/
                   (if truthy dep
                    then iadd_str dep ("," ++ afterany job_ids)
                    else ret (VStr (afterany job_ids))) m
                   = (Raise TypeError, m)).
    { destruct (truthy dep); [|left; eexists; reflexivity].
      destruct dep; simpl; unfold ret, raise;
        first [left; eexists; reflexivity | right; reflexivity]. }
    destruct Hdep as [[d Hd] | Hd]; rewrite Hd.
    + eexists (Return tt), [_].
      unfold dispatch_to_slurm, bind, emit, get_trace, ret. simpl.
      split; [reflexivity|]. split; [|discriminate].
      constructor; [exact I | constructor].
    + exists (Raise TypeError), []. rewrite app_nil_r.
      split; [destruct m; reflexivity|].
      split; [constructor | discriminate].
  - exists (Raise AttributeError), []. rewrite app_nil_r.
    split; [destruct m; reflexivity|].
    split; [constructor | discriminate].
Qed.

Lemma add_on_completion_tasks_events (job_ids : list Z) (m : machine) :
  exists r evs,
    _add_on_completion_tasks E job_ids m
    = (r, {| self := self m; trace := trace m ++ evs |}) /\
    Forall is_single evs /\ r <> OutOfFuel.
Proof.
  unfold _add_on_completion_tasks, bind, get_self.
  apply for_each_events. intros x m'. apply completion_task_events.
Qed.

(** *** [distribute] as a whole *)

(** What [distribute] does once the batch loops have returned
    [job_ids]. *)
Lemma distribute_tail (job_ids : list Z) (m : machine) :
  exists r evs,
    (clear_tasks ;;; _add_on_completion_tasks E job_ids ;;; ret job_ids) m
    = (r, {| self := with_tasks (self m) []; trace := trace m ++ evs |}) /\
    Forall is_single evs /\ r <> OutOfFuel /\
    (forall ids, r = Return ids -> ids = job_ids).
Proof.
  unfold bind at 1. unfold clear_tasks, bind, get_self, set_self. simpl.
  destruct (add_on_completion_tasks_events job_ids
              {| self := with_tasks (self m) []; trace := trace m |})
    as (r & evs & Hrun & Hev & Hr).
  unfold with_tasks in *. simpl in *. rewrite Hrun.
  destruct r as [[]|e|]; [| |congruence].
  - exists (Return job_ids), evs. unfold ret.
    repeat split; [assumption | discriminate | congruence].
  - exists (Raise e), evs.
    repeat split; [assumption | discriminate | discriminate].
Qed.

End Properties.

(** ** Dictionaries: keys, lookup and equality *)

Lemma dict_set_keys_In (k : string) (v : value) (d : pydict) (k' : string) :
  In k' (map fst (dict_set k v d)) <-> k' = k \/ In k' (map fst d).
Proof.
  induction d as [|[k0 v0] d IH]; simpl.
  - intuition congruence.
  - destruct (String.eqb_spec k0 k) as [->|Hne]; simpl.
    + intuition congruence.
    + rewrite IH. intuition congruence.
Qed.

Lemma dict_set_keys_NoDup (k : string) (v : value) (d : pydict) :
  NoDup (map fst d) -> NoDup (map fst (dict_set k v d)).
Proof.
  induction d as [|[k0 v0] d IH]; simpl; intros Hnd.
  - apply NoDup_singleton.
  - apply NoDup_cons in Hnd as [Hnotin Hnd].
    rewrite list_elem_of_In in Hnotin.
    destruct (String.eqb_spec k0 k) as [->|Hne]; simpl.
    + apply NoDup_cons. rewrite list_elem_of_In. split; assumption.
    + apply NoDup_cons. split; [|apply IH; assumption].
      rewrite list_elem_of_In, dict_set_keys_In.
      intros [Heq|Hin]; [congruence | contradiction].
Qed.

Lemma dict_of_items_NoDup (items : list (string * value)) :
  NoDup (map fst (dict_of_items items)).
Proof.
  unfold dict_of_items.
  assert (H : forall acc : pydict, NoDup (map fst acc) ->
            NoDup (map fst (fold_left
              (fun d kv => dict_set (fst kv) (snd kv) d) items acc))).
  { induction items as [|[k v] items IH]; intros acc Hacc; simpl.
    - assumption.
    - apply IH. apply dict_set_keys_NoDup. assumption. }
  apply H. apply NoDup_nil_2.
Qed.

Lemma dict_get_Some_In (k : string) (v : value) (d : pydict) :
  dict_get k d = Some v -> In (k, v) d.
Proof.
  induction d as [|[k0 v0] d IH]; simpl; [discriminate|].
  destruct (String.eqb_spec k0 k) as [->|Hne].
  - intros [= ->]. left; reflexivity.
  - intros H. right. apply IH. assumption.
Qed.

Lemma dict_get_In_NoDup (k : string) (v : value) (d : pydict) :
  NoDup (map fst d) -> In (k, v) d -> dict_get k d = Some v.
Proof.
  induction d as [|[k0 v0] d IH]; simpl; intros Hnd Hin; [contradiction|].
  apply NoDup_cons in Hnd as [Hnotin Hnd].
  rewrite list_elem_of_In in Hnotin.
  destruct Hin as [[= -> ->]|Hin].
  - destruct (String.eqb_spec k k); [reflexivity | congruence].
  - destruct (String.eqb_spec k0 k) as [->|Hne].
    + exfalso. apply Hnotin. apply in_map_iff. exists (k, v). split; [reflexivity | assumption].
    + apply IH; assumption.
Qed.

Lemma dict_items_NoDup (d : pydict) : NoDup (map fst d) -> NoDup d.
Proof. apply NoDup_fmap_1. Qed.

(** Two dictionaries are equal exactly when they hold the same items, in
    whatever order. *)
Lemma dict_eq_Permutation (d1 d2 : pydict) :
  NoDup (map fst d1) -> NoDup (map fst d2) ->
  dict_eq d1 d2 = true <-> d1 ≡ₚ d2.
Proof.
  intros Hnd1 Hnd2. unfold dict_eq. rewrite andb_true_iff.
  rewrite Nat.eqb_eq, forallb_forall. split.
  - intros [Hlen Hall].
    apply submseteq_length_Permutation; [|lia].
    apply NoDup_submseteq; [apply dict_items_NoDup; assumption|].
    intros [k v] Hin. apply list_elem_of_In in Hin.
    specialize (Hall (k, v) Hin). simpl in Hall.
    destruct (dict_get k d2) as [v'|] eqn:Hget; [|discriminate].
    apply bool_decide_eq_true in Hall. subst v'.
    apply list_elem_of_In. apply dict_get_Some_In. assumption.
  - intros Hperm. split; [apply Permutation_length; assumption|].
    intros [k v] Hin. simpl.
    rewrite (dict_get_In_NoDup k v d2 Hnd2).
    + apply bool_decide_eq_true. reflexivity.
    + apply list_elem_of_In. rewrite <- Hperm. apply list_elem_of_In. assumption.
Qed.

Lemma dict_eq_refl (d : pydict) : NoDup (map fst d) -> dict_eq d d = true.
Proof. intros Hnd. apply dict_eq_Permutation; [assumption..|reflexivity]. Qed.

Lemma dict_eq_sym (d1 d2 : pydict) :
  NoDup (map fst d1) -> NoDup (map fst d2) ->
  dict_eq d1 d2 = true -> dict_eq d2 d1 = true.
Proof.
  intros H1 H2 Heq. apply dict_eq_Permutation; [assumption..|].
  symmetry. apply dict_eq_Permutation in Heq; assumption.
Qed.

Lemma dict_eq_trans (d1 d2 d3 : pydict) :
  NoDup (map fst d1) -> NoDup (map fst d2) -> NoDup (map fst d3) ->
  dict_eq d1 d2 = true -> dict_eq d2 d3 = true -> dict_eq d1 d3 = true.
Proof.
  intros H1 H2 H3 H12 H23. apply dict_eq_Permutation; [assumption..|].
  apply dict_eq_Permutation in H12; [|assumption..].
  apply dict_eq_Permutation in H23; [|assumption..].
  etransitivity; eassumption.
Qed.

(** ** Dictionaries and their items *)

Lemma dict_get_set (k k' : string) (v : value) (d : pydict) :
  dict_get k (dict_set k' v d)
  = if String.eqb k' k then Some v else dict_get k d.
Proof.
  induction d as [|[k0 v0] d IH]; simpl.
  - reflexivity.
  - destruct (String.eqb_spec k0 k') as [->|Hne]; simpl.
    + destruct (String.eqb_spec k' k); reflexivity.
    + rewrite IH. destruct (String.eqb_spec k0 k) as [->|]; [|reflexivity].
      destruct (String.eqb_spec k' k); [congruence | reflexivity].
Qed.

Lemma dict_get_app (k : string) (d1 d2 : pydict) :
  dict_get k (d1 ++ d2)
  = match dict_get k d1 with Some v => Some v | None => dict_get k d2 end.
Proof.
  induction d1 as [|[k0 v0] d1 IH]; simpl; [reflexivity|].
  destruct (String.eqb k0 k); [reflexivity | exact IH].
Qed.

(** [dict(items)] binds every key of [items] to the value of its last
    occurrence. *)
Lemma dict_of_items_get (items : list (string * value)) (k : string) :
  dict_get k (dict_of_items items) = dict_get k (rev items).
Proof.
  unfold dict_of_items.
  assert (H : forall acc : pydict,
            dict_get k (fold_left (fun d kv => dict_set (fst kv) (snd kv) d)
                                  items acc)
            = match dict_get k (rev items) with
              | Some v => Some v
              | None => dict_get k acc
              end).
  { induction items as [|[k0 v0] items IH]; intros acc; simpl.
    - reflexivity.
    - rewrite IH, dict_get_app, dict_get_set.
      destruct (dict_get k (rev items)); [reflexivity|].
      simpl. destruct (String.eqb k0 k); reflexivity. }
  rewrite H. destruct (dict_get k (rev items)); reflexivity.
Qed.

Lemma dict_set_fresh (k : string) (v : value) (d : pydict) :
  ~ In k (map fst d) -> dict_set k v d = d ++ [(k, v)].
Proof.
  induction d as [|[k0 v0] d IH]; simpl; intros Hnotin; [reflexivity|].
  destruct (String.eqb_spec k0 k) as [->|Hne].
  - exfalso. apply Hnotin. left; reflexivity.
  - f_equal. apply IH. intros Hin. apply Hnotin. right; assumption.
Qed.

(** [dict(items)] of items with distinct keys keeps them all, in their
    order. *)
Lemma dict_of_items_id (c : list (string * value)) :
  NoDup (map fst c) -> dict_of_items c = c.
Proof.
  unfold dict_of_items.
  assert (H : forall acc : pydict,
            NoDup (map fst (acc ++ c)) ->
            fold_left (fun d kv => dict_set (fst kv) (snd kv) d) c acc
            = acc ++ c).
  { induction c as [|[k v] c IH]; intros acc Hnd; simpl.
    - rewrite app_nil_r. reflexivity.
    - rewrite dict_set_fresh.
      + rewrite IH; rewrite <- app_assoc; [reflexivity | exact Hnd].
      + rewrite List.map_app in Hnd. apply NoDup_app in Hnd as (_ & Hdisj & _).
        intros Hin. apply (Hdisj k).
        * apply list_elem_of_In. exact Hin.
        * apply list_elem_of_In. left; reflexivity. }
  intros Hnd. apply (H []). exact Hnd.
Qed.

Lemma same_itemsb_spec (c1 c2 : list (string * value)) :
  same_itemsb c1 c2 = true <-> same_items c1 c2.
Proof.
  unfold same_itemsb, same_items.
  rewrite andb_true_iff, !forallb_forall. split.
  - intros [H1 H2] k v. split; intros Hin.
    + apply list_elem_of_In. eapply bool_decide_eq_true_1. exact (H1 _ Hin).
    + apply list_elem_of_In. eapply bool_decide_eq_true_1. exact (H2 _ Hin).
  - intros H. split; intros [k v] Hin; apply bool_decide_eq_true_2;
      apply list_elem_of_In; apply H; exact Hin.
Qed.

Lemma Permutation_same_items (d1 d2 : pydict) :
  NoDup (map fst d1) -> NoDup (map fst d2) ->
  d1 ≡ₚ d2 <-> same_items d1 d2.
Proof.
  intros Hnd1 Hnd2. unfold same_items. split.
  - intros Hperm k v. rewrite <- !list_elem_of_In, Hperm. reflexivity.
  - intros Hsame. apply NoDup_Permutation; try (apply dict_items_NoDup; assumption).
    intros [k v]. rewrite !list_elem_of_In. apply Hsame.
Qed.

(** Dictionaries are equal exactly when they hold the same items. *)
Lemma dict_eq_same_items (d1 d2 : pydict) :
  NoDup (map fst d1) -> NoDup (map fst d2) ->
  dict_eq d1 d2 = true <-> same_items d1 d2.
Proof.
  intros Hnd1 Hnd2.
  rewrite dict_eq_Permutation, Permutation_same_items by assumption.
  reflexivity.
Qed.

Lemma dict_eq_same_itemsb (d1 d2 : pydict) :
  NoDup (map fst d1) -> NoDup (map fst d2) ->
  dict_eq d1 d2 = same_itemsb d1 d2.
Proof.
  intros Hnd1 Hnd2. apply eq_true_iff_eq.
  rewrite dict_eq_same_items, same_itemsb_spec by assumption. reflexivity.
Qed.

(** ** Hashing a dictionary *)

Section Hashing.

Variable E : Collaborators.

Lemma same_item_hashes_trans (h1 h2 h3 : option (list Z)) :
  same_item_hashes h1 h2 -> same_item_hashes h2 h3 -> same_item_hashes h1 h3.
Proof.
  destruct h1, h2, h3; simpl; try tauto.
  intros H12 H23. etransitivity; eassumption.
Qed.

Lemma hash_items_Permutation (d1 d2 : pydict) :
  d1 ≡ₚ d2 -> same_item_hashes (hash_items E d1) (hash_items E d2).
Proof.
  induction 1 as [|[k v] d1 d2 Hperm IH|[k1 v1] [k2 v2] d|d1 d2 d3 _ IH1 _ IH2].
  - simpl. reflexivity.
  - cbn [hash_items].
    destruct (py_hash E (VTuple [VStr k; v])); [|exact I].
    destruct (hash_items E d1), (hash_items E d2); simpl in *;
      try contradiction; try exact I.
    constructor. assumption.
  - cbn [hash_items].
    destruct (py_hash E (VTuple [VStr k1; v1])),
             (py_hash E (VTuple [VStr k2; v2])),
             (hash_items E d); simpl; try exact I.
    apply perm_swap.
  - eapply same_item_hashes_trans; eassumption.
Qed.

(** Equal dictionaries hash alike: [__hash__] does not see the order of
    the items. *)
Lemma HashableDict_hash_Permutation (d1 d2 : pydict) :
  d1 ≡ₚ d2 -> HashableDict__hash__ E d1 = HashableDict__hash__ E d2.
Proof.
  intros Hperm. unfold HashableDict__hash__.
  pose proof (hash_items_Permutation d1 d2 Hperm) as Hsame.
  destruct (hash_items E d1) as [a|], (hash_items E d2) as [b|];
    simpl in *; try contradiction; [|reflexivity].
  f_equal. f_equal. f_equal.
  apply (Sorted_unique Z.le).
  - apply Sorted_merge_sort. apply _.
  - apply Sorted_merge_sort. apply _.
  - rewrite !merge_sort_Permutation. assumption.
Qed.

Lemma HashableDict_hash_eq (d1 d2 : pydict) :
  NoDup (map fst d1) -> NoDup (map fst d2) ->
  dict_eq d1 d2 = true ->
  HashableDict__hash__ E d1 = HashableDict__hash__ E d2.
Proof.
  intros H1 H2 Heq. apply HashableDict_hash_Permutation.
  apply dict_eq_Permutation; assumption.
Qed.

(** An unhashable value anywhere makes the whole dictionary
    unhashable. *)
Lemma hash_items_unhashable (d : pydict) (k : string) (v : value) :
  In (k, v) d -> py_hash E v = None -> hash_items E d = None.
Proof.
  induction d as [|[k0 v0] d IH]; intros Hin Hv; [contradiction|].
  cbn [hash_items].
  destruct Hin as [[= -> ->]|Hin].
  - simpl. rewrite Hv. reflexivity.
  - rewrite (IH Hin Hv).
    destruct (py_hash E (VTuple [VStr k0; v0])); reflexivity.
Qed.

Lemma hash_items_hashable (d : pydict) :
  (forall k v, In (k, v) d -> py_hash E v <> None) ->
  hash_items E d <> None.
Proof.
  induction d as [|[k0 v0] d IH]; intros Hall; [discriminate|].
  cbn [hash_items]. simpl.
  destruct (py_hash E v0) eqn:Hv0.
  - simpl. destruct (hash_items E d) eqn:Hd; [discriminate|].
    exfalso. apply IH; [|reflexivity].
    intros k v Hin. apply (Hall k v). right; assumption.
  - exfalso. apply (Hall k0 v0); [left; reflexivity | assumption].
Qed.

(** The hash of a tuple of integers. *)
Lemma py_hash_ints (l : list Z) :
  py_hash E (VTuple (map VInt l)) = Some (hash_tuple E (map (hash_int E) l)).
Proof.
  cbn [py_hash].
  match goal with
  | |- option_map _ (?F _) = _ =>
      assert (H : forall l', F (map VInt l') = Some (map (hash_int E) l'))
  end.
  { induction l' as [|h l' IH]; [reflexivity|].
    cbn [map py_hash]. rewrite IH. reflexivity. }
  rewrite H. reflexivity.
Qed.

(** The item hashes, from the hashes of the values: each item is hashed
    as the pair of its key and its value. *)
Lemma hash_items_formula (d : pydict) (hvs : list Z) :
  Forall2 (fun kv hv => py_hash E (snd kv) = Some hv) d hvs ->
  hash_items E d
  = Some (zip_with (fun kv hv => hash_tuple E [hash_str E (fst kv); hv])
                   d hvs).
Proof.
  induction 1 as [|[k v] hv d hvs Hhv _ IH]; [reflexivity|].
  cbn [hash_items]. simpl in Hhv. simpl. rewrite Hhv. simpl.
  rewrite IH. reflexivity.
Qed.

End Hashing.

(** ** Grouping *)

Section Grouping.

Variable E : Collaborators.

Lemma key_of_NoDup (r : request) : NoDup (map fst (key_of E r)).
Proof. apply dict_of_items_NoDup. Qed.

(** [tasks_append] either extends the first bucket that takes the key, or
    adds a bucket at the end when none does. *)
Lemma tasks_append_cases (h : Z) (k : pydict) (c : _FunctionCall)
    (tasks : list bucket) :
  (exists t1 b t2,
      tasks = t1 ++ b :: t2 /\
      Forall (passes h k) t1 /\
      bucket_hash b = h /\ dict_eq (bucket_key b) k = true /\
      tasks_append h k c tasks
      = t1 ++ {| bucket_hash := bucket_hash b;
                 bucket_key := bucket_key b;
                 bucket_calls := bucket_calls b ++ [c] |} :: t2) \/
  (Forall (passes h k) tasks /\
   tasks_append h k c tasks
   = tasks ++ [ {| bucket_hash := h; bucket_key := k; bucket_calls := [c] |} ]).
Proof.
  induction tasks as [|b tasks IH]; simpl.
  - right. split; [constructor | reflexivity].
  - destruct ((bucket_hash b =? h) && dict_eq (bucket_key b) k) eqn:Hmatch.
    + left. exists [], b, tasks.
      apply andb_true_iff in Hmatch as [Hh Hk]. apply Z.eqb_eq in Hh.
      repeat split; [constructor | assumption | assumption].
    + destruct IH as [(t1 & b0 & t2 & -> & Hpass & Hh & Hk & Happ) | [Hpass Happ]].
      * left. exists (b :: t1), b0, t2. rewrite Happ.
        repeat split; [constructor; assumption | assumption | assumption].
      * right. rewrite Happ. split; [constructor; assumption | reflexivity].
Qed.

Lemma bucket_ok_NoDup (reqs : list request) (b : bucket) :
  bucket_ok E reqs b -> NoDup (map fst (bucket_key b)).
Proof. intros [(r & _ & ->) _]. apply key_of_NoDup. Qed.

(** A bucket that passes a key with the hash of that key has a different
    key: equal keys would have equal hashes. *)
Lemma passes_not_equal (reqs : list request) (h : Z) (r : request)
    (b : bucket) :
  bucket_ok E reqs b ->
  HashableDict__hash__ E (key_of E r) = Some h ->
  passes h (key_of E r) b ->
  dict_eq (bucket_key b) (key_of E r) = false.
Proof.
  intros Hok Hh Hpass. unfold passes in Hpass.
  destruct (dict_eq (bucket_key b) (key_of E r)) eqn:Heq; [|reflexivity].
  exfalso.
  pose proof (HashableDict_hash_eq E _ _ (bucket_ok_NoDup _ _ Hok)
                (key_of_NoDup r) Heq) as Hhash.
  destruct Hok as (_ & Hstored & _).
  rewrite Hstored, Hh in Hhash. injection Hhash as Hhash.
  rewrite Hhash, Z.eqb_refl in Hpass. discriminate.
Qed.

Lemma distinct_keys_app (t1 t2 : list bucket) :
  distinct_keys (t1 ++ t2) <->
  distinct_keys t1 /\ distinct_keys t2 /\
  Forall (fun b => Forall (fun c => dict_eq (bucket_key b) (bucket_key c) = false) t2) t1.
Proof.
  induction t1 as [|b t1 IH]; simpl.
  - split; [intros H; repeat split; [constructor | assumption | constructor]
           | intros (_ & H & _); assumption].
  - split.
    + intros H. inversion H as [|? ? Hb Hrest]; subst.
      apply IH in Hrest as (H1 & H2 & H12).
      apply Forall_app in Hb as [Hb1 Hb2].
      repeat split; [constructor; assumption | assumption
                    | constructor; assumption].
    + intros (H1 & H2 & H12).
      inversion H1 as [|? ? Hb1 Hrest1]; subst.
      inversion H12 as [|? ? Hb2 Hrest12]; subst.
      constructor; [apply Forall_app; split; assumption|].
      apply IH. repeat split; assumption.
Qed.

Lemma bucket_ok_snoc_other (reqs : list request) (r : request) (b : bucket) :
  bucket_ok E reqs b ->
  dict_eq (bucket_key b) (key_of E r) = false ->
  bucket_ok E (reqs ++ [r]) b.
Proof.
  intros ((r0 & Hin & Hkey) & Hhash & Hcalls) Hne.
  split; [|split].
  - exists r0. split; [apply in_or_app; left; assumption | assumption].
  - assumption.
  - rewrite List.filter_app, map_app. simpl. rewrite Hne. simpl.
    rewrite app_nil_r. assumption.
Qed.

(** One more request keeps the buckets grouped. *)
Lemma grouped_step (reqs : list request) (tasks : list bucket)
    (r : request) (h : Z) :
  grouped E reqs tasks ->
  HashableDict__hash__ E (key_of E r) = Some h ->
  grouped E (reqs ++ [r])
          (tasks_append h (key_of E r) (request_call r) tasks).
Proof.
  intros (Hok & Hdist & Hcover) Hh.
  assert (Hpassed : forall t, Forall (bucket_ok E reqs) t ->
            Forall (passes h (key_of E r)) t ->
            Forall (fun b => dict_eq (bucket_key b) (key_of E r) = false) t).
  { intros t Ht Hp. rewrite Forall_forall in *. intros b Hb.
    eapply passes_not_equal; eauto. }
  destruct (tasks_append_cases h (key_of E r) (request_call r) tasks)
    as [(t1 & b & t2 & -> & Hpass & Hbh & Hbk & ->) | [Hpass ->]].
  - (* the request joins the bucket [b] *)
    apply Forall_app in Hok as [Hok1 Hok2].
    inversion Hok2 as [|? ? Hokb Hok2']; subst. clear Hok2.
    apply distinct_keys_app in Hdist as (Hd1 & Hd2 & Hd12).
    inversion Hd2 as [|? ? Hdb Hd2']; subst. clear Hd2.
    pose proof (bucket_ok_NoDup _ _ Hokb) as Hndb.
    assert (Hne1 := Hpassed t1 Hok1 Hpass).
    assert (Hne2 : Forall (fun c => dict_eq (bucket_key c) (key_of E r) = false) t2).
    { rewrite Forall_forall in *. intros c Hc.
      destruct (dict_eq (bucket_key c) (key_of E r)) eqn:Hck; [|reflexivity].
      exfalso. specialize (Hdb c Hc). simpl in Hdb.
      pose proof (bucket_ok_NoDup _ _ (Hok2' c Hc)) as Hndc.
      rewrite (dict_eq_trans (bucket_key b) (key_of E r) (bucket_key c)) in Hdb;
        [discriminate | assumption | apply key_of_NoDup | assumption
        | assumption |].
      apply dict_eq_sym; [assumption | apply key_of_NoDup | assumption]. }
    set (b' := {| bucket_hash := bucket_hash b;
                  bucket_key := bucket_key b;
                  bucket_calls := bucket_calls b ++ [request_call r] |}).
    assert (Hokb' : bucket_ok E (reqs ++ [r]) b').
    { destruct Hokb as ((r0 & Hin & Hkey) & Hhash & Hcalls).
      split; [|split]; simpl.
      - exists r0. split; [apply in_or_app; left; assumption | assumption].
      - assumption.
      - rewrite List.filter_app, map_app. simpl. rewrite Hbk. simpl.
        rewrite Hcalls. reflexivity. }
    split; [|split].
    + apply Forall_app. split.
      * rewrite Forall_forall in *. intros c Hc.
        apply bucket_ok_snoc_other; auto.
      * constructor; [assumption|].
        rewrite Forall_forall in *. intros c Hc.
        apply bucket_ok_snoc_other; auto.
    + apply distinct_keys_app. repeat split.
      * assumption.
      * constructor; assumption.
      * rewrite Forall_forall in *. intros c Hc.
        specialize (Hd12 c Hc). inversion Hd12; subst.
        constructor; assumption.
    + intros r' Hin. apply in_app_or in Hin as [Hin | [<- | []]].
      * destruct (Hcover r' Hin) as (c & Hc & Hck).
        apply in_app_or in Hc as [Hc | [<- | Hc]].
        -- exists c. split; [apply in_or_app; left; assumption | assumption].
        -- exists b'. split; [apply in_or_app; right; left; reflexivity | assumption].
        -- exists c. split; [apply in_or_app; right; right; assumption | assumption].
      * exists b'. split; [apply in_or_app; right; left; reflexivity | assumption].
  - (* the request opens a bucket of its own *)
    assert (Hne := Hpassed tasks Hok Hpass).
    set (b' := {| bucket_hash := h; bucket_key := key_of E r;
                  bucket_calls := [request_call r] |}).
    assert (Hnone : List.filter (fun r' => dict_eq (key_of E r) (key_of E r')) reqs = []).
    { destruct (List.filter _ reqs) as [|r' l] eqn:Hf; [reflexivity|].
      exfalso.
      assert (Hin' : In r' (List.filter (fun r' => dict_eq (key_of E r) (key_of E r')) reqs))
        by (rewrite Hf; left; reflexivity).
      apply filter_In in Hin' as [Hin' Heq'].
      destruct (Hcover r' Hin') as (c & Hc & Hck).
      rewrite Forall_forall in Hne, Hok.
      specialize (Hne c ltac:(apply list_elem_of_In; exact Hc)).
      pose proof (bucket_ok_NoDup _ _ (Hok c ltac:(apply list_elem_of_In; exact Hc))) as Hndc.
      rewrite (dict_eq_trans (bucket_key c) (key_of E r') (key_of E r)) in Hne;
        [discriminate | assumption | apply key_of_NoDup | apply key_of_NoDup
        | assumption |].
      apply dict_eq_sym; [apply key_of_NoDup | apply key_of_NoDup | assumption]. }
    assert (Hokb' : bucket_ok E (reqs ++ [r]) b').
    { split; [|split]; simpl.
      - exists r. split; [apply in_or_app; right; left; reflexivity | reflexivity].
      - assumption.
      - rewrite List.filter_app, Hnone. simpl.
        rewrite (dict_eq_refl _ (key_of_NoDup r)). reflexivity. }
    split; [|split].
    + apply Forall_app. split.
      * rewrite Forall_forall in *. intros c Hc.
        apply bucket_ok_snoc_other; auto.
      * constructor; [assumption | constructor].
    + apply distinct_keys_app. repeat split.
      * assumption.
      * constructor; constructor.
      * rewrite Forall_forall in *. intros c Hc.
        constructor; [|constructor]. simpl. apply Hne. assumption.
    + intros r' Hin. apply in_app_or in Hin as [Hin | [<- | []]].
      * destruct (Hcover r' Hin) as (c & Hc & Hck).
        exists c. split; [apply in_or_app; left; assumption | assumption].
      * exists b'. split; [apply in_or_app; right; left; reflexivity|].
        simpl. apply dict_eq_refl, key_of_NoDup.
Qed.

End Grouping.

(** ** Sequences of [add] *)

Section Adding.

Variable E : Collaborators.

(** [add] on a [SlurmFunction], by the hash of its key. *)
Lemma add_slurm_function (sf : SlurmFunction) (args : list value)
    (kwargs : pydict) (m : machine) :
  add E (ObjSlurmFunction sf) args kwargs m
  = match HashableDict__hash__ E (conf_key E sf) with
    | None => (Raise TypeError, m)
    | Some h =>
        (Return tt,
         {| self := with_tasks (self m)
                      (tasks_append h (conf_key E sf)
                         (request_call (sf, args, kwargs)) (_tasks (self m)));
            trace := trace m |})
    end.
Proof.
  unfold add, conf_key.
  destruct (HashableDict__hash__ E _); reflexivity.
Qed.

Lemma add_all_grouped (rest : list request) :
  forall (pre : list request) (m m' : machine),
    grouped E pre (_tasks (self m)) ->
    add_all E rest m = (Return tt, m') ->
    grouped E (pre ++ rest) (_tasks (self m')) /\
    trace m' = trace m /\
    max_batch_size (self m') = max_batch_size (self m) /\
    _on_completion (self m') = _on_completion (self m).
Proof.
  induction rest as [|r rest IH]; intros pre m m' Hg Hrun.
  - injection Hrun as <-. rewrite app_nil_r. auto.
  - destruct r as [[sf args] kwargs].
    unfold add_all in Hrun. cbn [for_each] in Hrun.
    unfold bind at 1 in Hrun. cbn [fst snd] in Hrun.
    rewrite add_slurm_function in Hrun.
    destruct (HashableDict__hash__ E (conf_key E sf)) as [h|] eqn:Hh;
      [|discriminate].
    fold (add_all E rest) in Hrun.
    apply (IH (pre ++ [(sf, args, kwargs)])) in Hrun.
    + simpl in Hrun. rewrite <- app_assoc in Hrun. exact Hrun.
    + simpl. apply (grouped_step E pre (_tasks (self m)) (sf, args, kwargs) h);
        assumption.
Qed.

Lemma grouped_init : grouped E [] [].
Proof.
  split; [constructor|]. split; [constructor|]. intros r [].
Qed.

Lemma distinct_keys_lookup (reqs : list request) (tasks : list bucket) :
  Forall (bucket_ok E reqs) tasks ->
  distinct_keys tasks ->
  forall i j bi bj,
    tasks !! i = Some bi -> tasks !! j = Some bj ->
    dict_eq (bucket_key bi) (bucket_key bj) = true -> i = j.
Proof.
  intros Hok Hd. induction Hd as [|b tasks Hb Hd IH];
    intros i j bi bj Hi Hj Heq.
  - rewrite lookup_nil in Hi. discriminate.
  - inversion Hok as [|? ? Hokb Hok']; subst.
    rewrite Forall_forall in Hb, Hok'.
    destruct i as [|i], j as [|j]; simpl in Hi, Hj.
    + reflexivity.
    + injection Hi as <-.
      apply list_elem_of_lookup_2 in Hj. rewrite (Hb bj Hj) in Heq. discriminate.
    + injection Hj as <-.
      apply list_elem_of_lookup_2 in Hi.
      apply dict_eq_sym in Heq;
        [|eapply bucket_ok_NoDup; eauto | eapply bucket_ok_NoDup; eauto].
      rewrite (Hb bi Hi) in Heq. discriminate.
    + f_equal. eapply IH; eauto. apply Forall_forall. assumption.
Qed.

End Adding.

(** * The claims *)

Section Claims.

Variable E : Collaborators.

Lemma submitted_batches_groups (tasks : list bucket) :
  forall chunkss : list (list (list _FunctionCall)),
    submitted_batches
      (concat (zip_with
         (fun b chunks => map (fun c => DispatchBatch c (bucket_key b)) chunks)
         tasks chunkss))
    = concat (zip_with
         (fun b chunks => map (fun c => (c, bucket_key b)) chunks)
         tasks chunkss).
Proof.
  induction tasks as [|b tasks IH]; intros [|chunks chunkss]; try reflexivity.
  simpl. rewrite submitted_batches_app, submitted_batches_batch_events, IH.
  reflexivity.
Qed.

Lemma submitted_batches_whole (tasks : list bucket) :
  submitted_batches
    (map (fun b => DispatchBatch (bucket_calls b) (bucket_key b)) tasks)
  = map (fun b => (bucket_calls b, bucket_key b)) tasks.
Proof.
  induction tasks as [|b tasks IH]; [reflexivity|].
  simpl. rewrite IH. reflexivity.
Qed.

(** [distribute] with a bound of at least one, given budget for the
    longest group. *)
Lemma distribute_bounded_spec (size : Z) (s : AutoBatch) (tr : list event)
    (fuel : nat) :
  max_batch_size s = Some size -> 1 <= size ->
  Forall (fun b => (length (bucket_calls b) <= fuel)%nat) (_tasks s) ->
  exists chunkss r evs,
    distribute E fuel {| self := s; trace := tr |}
    = (r, {| self := with_tasks s [];
             trace := (tr ++ concat (zip_with
                         (fun b chunks =>
                            map (fun c => DispatchBatch c (bucket_key b)) chunks)
                         (_tasks s) chunkss)) ++ evs |}) /\
    r <> OutOfFuel /\
    Forall is_single evs /\
    Forall2 (fun b chunks => chunking size (bucket_calls b) chunks)
            (_tasks s) chunkss /\
    (forall ids, r = Return ids -> length ids = length (concat chunkss)).
Proof.
  intros Hsize Hpos Hfuel.
  destruct (distribute_bounded_runs E size fuel Hpos (_tasks s) []
              {| self := s; trace := tr |} Hfuel)
    as (chunkss & ids & Hch & Hlen & Hrun).
  simpl in Hrun.
  destruct (distribute_tail E ids
              {| self := s;
                 trace := tr ++ concat (zip_with
                   (fun b chunks =>
                      map (fun c => DispatchBatch c (bucket_key b)) chunks)
                   (_tasks s) chunkss) |})
    as (r & evs & Htail & Hev & Hr & Hids).
  exists chunkss, r, evs.
  split; [|repeat split; try assumption].
  - unfold distribute. unfold bind at 1. unfold get_self. cbn [self].
    rewrite Hsize. unfold bind at 1. rewrite Hrun. exact Htail.
  - intros ids' Hret. apply Hids in Hret. congruence.
Qed.

(** [distribute] without a bound. *)
Lemma distribute_whole_spec (s : AutoBatch) (tr : list event) (fuel : nat) :
  max_batch_size s = None ->
  exists r evs,
    distribute E fuel {| self := s; trace := tr |}
    = (r, {| self := with_tasks s [];
             trace := (tr ++ map (fun b => DispatchBatch (bucket_calls b)
                                              (bucket_key b)) (_tasks s))
                      ++ evs |}) /\
    r <> OutOfFuel /\
    Forall is_single evs /\
    (forall ids, r = Return ids -> length ids = length (_tasks s)).
Proof.
  intros Hsize.
  destruct (distribute_whole_runs E (_tasks s) [] {| self := s; trace := tr |})
    as (ids & Hlen & Hrun).
  simpl in Hrun.
  destruct (distribute_tail E ids
              {| self := s;
                 trace := tr ++ map (fun b => DispatchBatch (bucket_calls b)
                                                (bucket_key b)) (_tasks s) |})
    as (r & evs & Htail & Hev & Hr & Hids).
  exists r, evs.
  split; [|repeat split; try assumption].
  - unfold distribute. unfold bind at 1. unfold get_self. cbn [self].
    rewrite Hsize. unfold bind at 1. rewrite Hrun. exact Htail.
  - intros ids' Hret. apply Hids in Hret. congruence.
Qed.

Lemma tasks_append_same (h : Z) (k : pydict) (c : _FunctionCall)
    (calls : list _FunctionCall) (tasks : list bucket) :
  NoDup (map fst k) ->
  tasks_append h k c
    ({| bucket_hash := h; bucket_key := k; bucket_calls := calls |} :: tasks)
  = {| bucket_hash := h; bucket_key := k; bucket_calls := calls ++ [c] |}
    :: tasks.
Proof.
  intros Hnd. simpl. rewrite Z.eqb_refl, (dict_eq_refl k Hnd). reflexivity.
Qed.

(** Five calls of one function end up in one bucket. *)
Lemma five_adds_one_bucket (sf : SlurmFunction) (h : Z)
    (r1 r2 r3 r4 r5 : list value * pydict) (size : option Z) :
  HashableDict__hash__ E (conf_key E sf) = Some h ->
  add_all E [(sf, fst r1, snd r1); (sf, fst r2, snd r2); (sf, fst r3, snd r3);
             (sf, fst r4, snd r4); (sf, fst r5, snd r5)]
    {| self := __init__ size; trace := [] |}
  = (Return tt,
     {| self :=
          {| max_batch_size := size;
             _tasks :=
               [ {| bucket_hash := h;
                    bucket_key := conf_key E sf;
                    bucket_calls :=
                      [request_call (sf, fst r1, snd r1);
                       request_call (sf, fst r2, snd r2);
                       request_call (sf, fst r3, snd r3);
                       request_call (sf, fst r4, snd r4);
                       request_call (sf, fst r5, snd r5)] |} ];
             _on_completion := [] |};
        trace := [] |}).
Proof.
  intros Hh.
  assert (Hnd : NoDup (map fst (conf_key E sf))) by apply dict_of_items_NoDup.
  unfold add_all. cbn [for_each fst snd]. unfold bind.
  rewrite !add_slurm_function, Hh. cbn [self _tasks with_tasks __init__ trace
    max_batch_size _on_completion tasks_append].
  rewrite add_slurm_function, Hh. cbn [self _tasks with_tasks trace
    max_batch_size _on_completion].
  rewrite (tasks_append_same h _ _ _ [] Hnd).
  rewrite add_slurm_function, Hh. cbn [self _tasks with_tasks trace
    max_batch_size _on_completion].
  rewrite (tasks_append_same h _ _ _ [] Hnd).
  rewrite add_slurm_function, Hh. cbn [self _tasks with_tasks trace
    max_batch_size _on_completion].
  rewrite (tasks_append_same h _ _ _ [] Hnd).
  rewrite add_slurm_function, Hh. cbn [self _tasks with_tasks trace
    max_batch_size _on_completion].
  rewrite (tasks_append_same h _ _ _ [] Hnd).
  reflexivity.
Qed.

(** One bucket of five calls under a bound of two. *)
Lemma distribute_five_by_two (h : Z) (k : pydict)
    (c1 c2 c3 c4 c5 : _FunctionCall) (fuel : nat) :
  (3 <= fuel)%nat ->
  exists j1 j2 j3,
    distribute E fuel
      {| self := {| max_batch_size := Some 2;
                    _tasks := [ {| bucket_hash := h; bucket_key := k;
                                   bucket_calls := [c1; c2; c3; c4; c5] |} ];
                    _on_completion := [] |};
         trace := [] |}
    = (Return [j1; j2; j3],
       {| self := {| max_batch_size := Some 2; _tasks := [];
                     _on_completion := [] |};
          trace := [DispatchBatch [c1; c2] k; DispatchBatch [c3; c4] k;
                    DispatchBatch [c5] k] |}).
Proof.
  intros Hfuel.
  destruct fuel as [|[|[|fuel]]]; try lia.
  do 3 eexists.
  unfold distribute. unfold bind at 1. unfold get_self.
  cbn [self max_batch_size _tasks distribute_bounded bucket_key bucket_calls].
  unfold bind at 1. unfold bind at 1.
  rewrite distribute_chunks_step.
  change (slice_from [c1; c2; c3; c4; c5] 2) with [c3; c4; c5].
  change (slice_to [c1; c2; c3; c4; c5] 2) with [c1; c2].
  rewrite distribute_chunks_step.
  change (slice_from [c3; c4; c5] 2) with [c5].
  change (slice_to [c3; c4; c5] 2) with [c3; c4].
  rewrite distribute_chunks_step.
  change (slice_from [c5] 2) with (@nil _FunctionCall).
  change (slice_to [c5] 2) with [c5].
  rewrite distribute_chunks_nil.
  cbn. reflexivity.
Qed.

(** C1.  With a bound [size >= 1], [distribute] cuts every group into
    consecutive non-empty chunks of at most [size] invocations, all full
    but possibly the last, whose concatenation is the group in arrival
    order; it submits them group after group and chunk after chunk, and
    returns one job id per chunk.  Without a bound every group is one job
    with all its invocations.  Five invocations of one function with
    bound 2 give three jobs, of 2, 2 and 1 invocations. *)
Theorem distribute_partitions_each_group :
  (forall (size : Z) (s : AutoBatch) (tr : list event) (fuel : nat),
      max_batch_size s = Some size -> 1 <= size ->
      Forall (fun b => (length (bucket_calls b) <= fuel)%nat) (_tasks s) ->
      exists chunkss r m',
        distribute E fuel {| self := s; trace := tr |} = (r, m') /\
        r <> OutOfFuel /\
        Forall2 (fun b chunks => chunking size (bucket_calls b) chunks)
                (_tasks s) chunkss /\
        submitted_batches (trace m')
        = submitted_batches tr ++
          concat (zip_with
            (fun b chunks => map (fun c => (c, bucket_key b)) chunks)
            (_tasks s) chunkss) /\
        (forall ids, r = Return ids -> length ids = length (concat chunkss))) /\
  (forall (s : AutoBatch) (tr : list event) (fuel : nat),
      max_batch_size s = None ->
      exists r m',
        distribute E fuel {| self := s; trace := tr |} = (r, m') /\
        r <> OutOfFuel /\
        submitted_batches (trace m')
        = submitted_batches tr ++
          map (fun b => (bucket_calls b, bucket_key b)) (_tasks s) /\
        (forall ids, r = Return ids -> length ids = length (_tasks s))) /\
  (forall (sf : SlurmFunction) (h : Z) (r1 r2 r3 r4 r5 : list value * pydict)
          (fuel : nat),
      HashableDict__hash__ E (conf_key E sf) = Some h ->
      (3 <= fuel)%nat ->
      exists m0 j1 j2 j3 m',
        add_all E [(sf, fst r1, snd r1); (sf, fst r2, snd r2);
                   (sf, fst r3, snd r3); (sf, fst r4, snd r4);
                   (sf, fst r5, snd r5)]
          {| self := __init__ (Some 2); trace := [] |} = (Return tt, m0) /\
        distribute E fuel m0 = (Return [j1; j2; j3], m') /\
        submitted_batches (trace m')
        = [([request_call (sf, fst r1, snd r1);
             request_call (sf, fst r2, snd r2)], conf_key E sf);
           ([request_call (sf, fst r3, snd r3);
             request_call (sf, fst r4, snd r4)], conf_key E sf);
           ([request_call (sf, fst r5, snd r5)], conf_key E sf)] /\
        map (fun job => length (fst job)) (submitted_batches (trace m'))
        = [2; 2; 1]%nat).
Proof.
  split; [|split].
  - intros size s tr fuel Hsize Hpos Hfuel.
    destruct (distribute_bounded_spec size s tr fuel Hsize Hpos Hfuel)
      as (chunkss & r & evs & Hrun & Hr & Hev & Hch & Hids).
    exists chunkss, r. eexists. split; [exact Hrun|].
    repeat split; try assumption.
    cbn [trace]. rewrite !submitted_batches_app, submitted_batches_groups.
    rewrite (singles_no_batches evs Hev), app_nil_r. reflexivity.
  - intros s tr fuel Hsize.
    destruct (distribute_whole_spec s tr fuel Hsize)
      as (r & evs & Hrun & Hr & Hev & Hids).
    exists r. eexists. split; [exact Hrun|].
    repeat split; try assumption.
    cbn [trace]. rewrite !submitted_batches_app, submitted_batches_whole.
    rewrite (singles_no_batches evs Hev), app_nil_r. reflexivity.
  - intros sf h r1 r2 r3 r4 r5 fuel Hh Hfuel.
    destruct (distribute_five_by_two h (conf_key E sf)
                (request_call (sf, r1.1, r1.2)) (request_call (sf, r2.1, r2.2))
                (request_call (sf, r3.1, r3.2)) (request_call (sf, r4.1, r4.2))
                (request_call (sf, r5.1, r5.2)) fuel Hfuel)
      as (j1 & j2 & j3 & Hrun).
    eexists _, j1, j2, j3, _.
    split; [apply five_adds_one_bucket; exact Hh|].
    split; [exact Hrun|].
    split; reflexivity.
Qed.

(** *** Runs of [distribute] in general *)

Lemma batches_no_local_calls (evs : list event) :
  Forall is_batch evs -> local_calls evs = [].
Proof.
  induction 1 as [|e evs He _ IH]; [reflexivity|].
  destruct e; simpl in *; try contradiction. assumption.
Qed.

Lemma batches_no_singles (evs : list event) :
  Forall is_batch evs -> submitted_singles evs = [].
Proof.
  induction 1 as [|e evs He _ IH]; [reflexivity|].
  destruct e; simpl in *; try contradiction. assumption.
Qed.

(** Whatever the bound and the budget, the chunk loop only submits
    batches, leaves the session as it is and raises nothing. *)
Lemma distribute_chunks_events (size : Z) (conf : pydict) (fuel : nat) :
  forall (calls : list _FunctionCall) (job_ids : list Z) (m : machine),
    exists r evs,
      distribute_chunks E fuel size conf calls job_ids m
      = (r, {| self := self m; trace := trace m ++ evs |}) /\
      Forall is_batch evs /\ (forall e, r <> Raise e).
Proof.
  induction fuel as [|fuel IH]; intros calls job_ids m.
  - destruct calls as [|c calls].
    + exists (Return job_ids), []. rewrite app_nil_r.
      split; [destruct m; reflexivity|]. split; [constructor | discriminate].
    + exists OutOfFuel, []. rewrite app_nil_r.
      split; [destruct m; reflexivity|]. split; [constructor | discriminate].
  - destruct calls as [|c calls].
    + exists (Return job_ids), []. rewrite app_nil_r.
      split; [destruct m; reflexivity|]. split; [constructor | discriminate].
    + rewrite distribute_chunks_step.
      edestruct IH as (r & evs & Hrun & Hev & Hr). rewrite Hrun.
      cbn [self trace].
      exists r, (DispatchBatch (slice_to (c :: calls) size) conf :: evs).
      rewrite <- app_assoc. split; [reflexivity|].
      split; [constructor; [exact I | assumption] | assumption].
Qed.

Lemma distribute_bounded_events (size : Z) (fuel : nat)
    (tasks : list bucket) :
  forall (job_ids : list Z) (m : machine),
    exists r evs,
      distribute_bounded E fuel size tasks job_ids m
      = (r, {| self := self m; trace := trace m ++ evs |}) /\
      Forall is_batch evs /\ (forall e, r <> Raise e) /\
      (tasks = [] -> r = Return job_ids /\ evs = []).
Proof.
  induction tasks as [|b tasks IH]; intros job_ids m.
  - exists (Return job_ids), []. rewrite app_nil_r.
    split; [destruct m; reflexivity|].
    split; [constructor|]. split; [discriminate | auto].
  - cbn [distribute_bounded]. unfold bind.
    destruct (distribute_chunks_events size (bucket_key b) fuel
                (bucket_calls b) job_ids m)
      as (r1 & evs1 & Hrun1 & Hev1 & Hr1).
    rewrite Hrun1.
    destruct r1 as [ids1|e|].
    + destruct (IH ids1 {| self := self m; trace := trace m ++ evs1 |})
        as (r2 & evs2 & Hrun2 & Hev2 & Hr2 & _).
      rewrite Hrun2. cbn [self trace].
      exists r2, (evs1 ++ evs2). rewrite <- app_assoc.
      split; [reflexivity|].
      split; [apply Forall_app; split; assumption|].
      split; [assumption | discriminate].
    + exfalso. eapply Hr1. reflexivity.
    + exists OutOfFuel, evs1. split; [reflexivity|].
      split; [assumption|]. split; discriminate.
Qed.

(** Every run of [distribute]: batch submissions, then single
    submissions; the groups are cleared unless the budget ran out in the
    loops; on a session without groups no batch is submitted and the
    list of job ids is empty. *)
Lemma distribute_events (fuel : nat) (m : machine) :
  exists r evs1 evs2,
    distribute E fuel m
    = (r, {| self := match r with
                     | OutOfFuel => self m
                     | _ => with_tasks (self m) []
                     end;
             trace := (trace m ++ evs1) ++ evs2 |}) /\
    Forall is_batch evs1 /\ Forall is_single evs2 /\
    (_tasks (self m) = [] ->
     evs1 = [] /\ r <> OutOfFuel /\ forall ids, r = Return ids -> ids = []).
Proof.
  assert (Hloops : exists r evs,
            match max_batch_size (self m) with
            | None => distribute_whole E (_tasks (self m)) []
            | Some size => distribute_bounded E fuel size (_tasks (self m)) []
            end m = (r, {| self := self m; trace := trace m ++ evs |}) /\
            Forall is_batch evs /\
            (forall e, r <> Raise e) /\
            (_tasks (self m) = [] -> r = Return [] /\ evs = [])).
  { destruct (max_batch_size (self m)) as [size|].
    - apply distribute_bounded_events.
    - destruct (distribute_whole_runs E (_tasks (self m)) [] m)
        as (ids & Hlen & Hrun).
      exists (Return ([] ++ ids)). eexists. split; [exact Hrun|].
      split; [|split].
      + clear. induction (_tasks (self m)); constructor; [exact I | assumption].
      + discriminate.
      + intros Hnil. rewrite Hnil in *. destruct ids; [|discriminate].
        split; reflexivity. }
  destruct Hloops as (r & evs1 & Hrun & Hev1 & Hnoraise & Hnil).
  unfold distribute. unfold bind at 1. unfold get_self. unfold bind at 1.
  rewrite Hrun.
  destruct r as [ids|e|].
  - destruct (distribute_tail E ids {| self := self m; trace := trace m ++ evs1 |})
      as (r2 & evs2 & Htail & Hev2 & Hr2 & Hids).
    cbn [self trace] in Htail. rewrite Htail.
    exists r2, evs1, evs2.
    split; [destruct r2; [reflexivity | reflexivity | congruence]|].
    repeat split; try assumption.
    + apply Hnil. assumption.
    + intros ids' Hret. apply Hids in Hret.
      destruct (Hnil H) as [Hret0 _]. congruence.
  - exfalso. eapply Hnoraise. reflexivity.
  - exists OutOfFuel, evs1, []. rewrite app_nil_r.
    split; [reflexivity|]. repeat split; try assumption; try constructor.
    + apply Hnil. assumption.
    + destruct (Hnil H) as [? _]. discriminate.
    + discriminate.
Qed.

Lemma bucket_within_accumulated (s : AutoBatch) :
  Forall (fun b => (length (bucket_calls b) <= length (accumulated s))%nat)
         (_tasks s).
Proof.
  unfold accumulated. induction (_tasks s) as [|b tasks IH]; [constructor|].
  simpl. rewrite length_app. constructor; [lia|].
  eapply Forall_impl; [exact IH|]. simpl. intros c Hc. lia.
Qed.

(** C10.  [distribute] ends, whatever the session, when [max_batch_size]
    is [None] or at least one: a budget of one iteration per accumulated
    invocation is enough, because every iteration of the chunk loop
    leaves a strictly shorter list.  With [max_batch_size = 0] a slice
    removes nothing, and a session with a non-empty group exhausts every
    budget. *)
Theorem distribute_terminates_for_positive_bound :
  (forall (s : AutoBatch) (tr : list event),
      (max_batch_size s = None \/
       exists size, max_batch_size s = Some size /\ 1 <= size) ->
      forall fuel, (length (accumulated s) <= fuel)%nat ->
        fst (distribute E fuel {| self := s; trace := tr |}) <> OutOfFuel) /\
  (forall (size : Z) (calls : list _FunctionCall),
      1 <= size -> calls <> [] ->
      (length (slice_from calls size) < length calls)%nat) /\
  (forall calls : list _FunctionCall,
      slice_from calls 0 = calls /\ slice_to calls 0 = []) /\
  (forall (s : AutoBatch) (tr : list event) (fuel : nat),
      max_batch_size s = Some 0 ->
      Exists (fun b => bucket_calls b <> []) (_tasks s) ->
      fst (distribute E fuel {| self := s; trace := tr |}) = OutOfFuel).
Proof.
  split; [|split; [|split]].
  - intros s tr [Hnone | (size & Hsize & Hpos)] fuel Hfuel.
    + destruct (distribute_whole_spec s tr fuel Hnone)
        as (r & evs & Hrun & Hr & _).
      rewrite Hrun. exact Hr.
    + assert (Hb : Forall (fun b => (length (bucket_calls b) <= fuel)%nat)
                          (_tasks s)).
      { eapply Forall_impl; [apply bucket_within_accumulated|].
        simpl. intros b Hb. lia. }
      destruct (distribute_bounded_spec size s tr fuel Hsize Hpos Hb)
        as (chunkss & r & evs & Hrun & Hr & _).
      rewrite Hrun. exact Hr.
  - intros size calls. apply slice_from_shrinks.
  - intros calls. split; [apply slice_from_zero | apply slice_to_zero].
  - intros s tr fuel Hsize Hex.
    unfold distribute. unfold bind at 1. unfold get_self. cbn [self].
    rewrite Hsize. unfold bind at 1.
    pose proof (distribute_bounded_zero E fuel (_tasks s) []
                  {| self := s; trace := tr |} Hex) as Hzero.
    destruct (distribute_bounded E fuel 0 (_tasks s) []
                {| self := s; trace := tr |}) as [[ids|e|] m1];
      simpl in Hzero; try discriminate.
    reflexivity.
Qed.

(** *** Local runs *)

Lemma run_calls_locally (calls : list _FunctionCall) (m : machine) :
  for_each calls SlurmFunction_call m
  = (Return tt,
     {| self := self m; trace := trace m ++ map local_call_event calls |}).
Proof.
  revert m. induction calls as [|c calls IH]; intros m.
  - simpl. unfold ret. rewrite app_nil_r. destruct m; reflexivity.
  - simpl. unfold bind. unfold SlurmFunction_call at 1. unfold emit.
    rewrite IH. cbn [self trace]. rewrite <- app_assoc. reflexivity.
Qed.

Lemma run_groups_locally (tasks : list bucket) (m : machine) :
  for_each tasks (fun b => for_each (bucket_calls b) SlurmFunction_call) m
  = (Return tt,
     {| self := self m;
        trace := trace m ++
                 map local_call_event (concat (map bucket_calls tasks)) |}).
Proof.
  revert m. induction tasks as [|b tasks IH]; intros m.
  - simpl. unfold ret. rewrite app_nil_r. destruct m; reflexivity.
  - simpl. unfold bind. rewrite run_calls_locally, IH. cbn [self trace].
    rewrite map_app, <- app_assoc. reflexivity.
Qed.

(** [run_locally] calls every accumulated invocation, group after group,
    and clears the groups; it always returns. *)
Lemma run_locally_spec (m : machine) :
  run_locally m
  = (Return tt,
     {| self := with_tasks (self m) [];
        trace := trace m ++ map local_call_event (accumulated (self m)) |}).
Proof.
  unfold run_locally. unfold bind at 1. unfold get_self.
  unfold bind at 1. rewrite run_groups_locally.
  unfold clear_tasks, bind, get_self, set_self. reflexivity.
Qed.

(** [__exit__] after a block that ended normally, without [sbatch]. *)
Lemma exit_without_sbatch (fuel : nat) (m : machine) :
  __exit__ E fuel None None m
  = (Return VNone,
     {| self := with_tasks (self m) [];
        trace := trace m ++
          Print "No Slurm environment available. Running batch locally."
          :: map local_call_event (accumulated (self m)) |}).
Proof.
  unfold __exit__. cbn [no_sbatch]. unfold bind at 1. unfold emit.
  unfold bind at 1. rewrite run_locally_spec. cbn [self trace].
  rewrite <- app_assoc. reflexivity.
Qed.

Lemma local_events_no_submissions (calls : list _FunctionCall) :
  submitted_batches (map local_call_event calls) = [] /\
  submitted_singles (map local_call_event calls) = [].
Proof.
  induction calls as [|c calls [IH1 IH2]]; [split; reflexivity|].
  simpl. split; assumption.
Qed.

(** C8.  Leaving the block without an exception runs one terminal path,
    chosen by [shutil.which]: with no [sbatch] the handler prints a
    notice and calls every accumulated invocation once, group after
    group and in arrival order within a group, and submits no job; with
    an [sbatch] it is [distribute] that runs, and nothing is called in
    this process. *)
Theorem exit_selects_terminal_path :
  (forall (fuel : nat) (m : machine),
      exists m',
        __exit__ E fuel None None m = (Return VNone, m') /\
        trace m'
        = trace m ++
          Print "No Slurm environment available. Running batch locally."
          :: map local_call_event (accumulated (self m)) /\
        local_calls (trace m') = local_calls (trace m) ++ accumulated (self m) /\
        submitted_batches (trace m') = submitted_batches (trace m) /\
        submitted_singles (trace m') = submitted_singles (trace m)) /\
  (forall (fuel : nat) (path : string) (m : machine),
      path <> ""%string ->
      exists r m',
        distribute E fuel m = (r, m') /\
        __exit__ E fuel (Some path) None m
        = (match r with
           | Return _ => Return VNone
           | Raise e => Raise e
           | OutOfFuel => OutOfFuel
           end, m') /\
        local_calls (trace m') = local_calls (trace m)).
Proof.
  split.
  - intros fuel m. eexists. split; [apply exit_without_sbatch|].
    cbn [self trace]. split; [reflexivity|].
    rewrite !local_calls_app, !submitted_batches_app, !submitted_singles_app.
    cbn [local_calls submitted_batches submitted_singles].
    rewrite local_calls_local_events.
    destruct (local_events_no_submissions (accumulated (self m))) as [-> ->].
    rewrite !app_nil_r. repeat split; reflexivity.
  - intros fuel path m Hpath.
    destruct (distribute_events fuel m)
      as (r & evs1 & evs2 & Hrun & Hev1 & Hev2 & _).
    exists r. eexists. split; [exact Hrun|]. split.
    + unfold __exit__. cbn [no_sbatch].
      destruct (String.eqb_spec path "") as [->|_]; [congruence|].
      unfold bind. rewrite Hrun. destruct r; reflexivity.
    + cbn [trace]. rewrite !local_calls_app.
      rewrite (batches_no_local_calls evs1 Hev1).
      rewrite (singles_no_local_calls evs2 Hev2).
      rewrite !app_nil_r. reflexivity.
Qed.

Lemma with_tasks_nil (s : AutoBatch) : _tasks s = [] -> with_tasks s [] = s.
Proof. destruct s as [size tasks completion]. simpl. intros ->. reflexivity. Qed.

(** [__exit__] without [sbatch] returns without touching the completion
    list: its entries are neither called nor submitted. *)
Lemma exit_without_sbatch_completion (fuel : nat) (m : machine) :
  exists m',
    __exit__ E fuel None None m = (Return VNone, m') /\
    local_calls (trace m') = local_calls (trace m) ++ accumulated (self m) /\
    submitted_singles (trace m') = submitted_singles (trace m) /\
    _on_completion (self m') = _on_completion (self m).
Proof.
  eexists. split; [apply exit_without_sbatch|].
  cbn [self trace with_tasks _on_completion].
  rewrite !local_calls_app, !submitted_singles_app.
  cbn [local_calls submitted_singles].
  rewrite local_calls_local_events.
  destruct (local_events_no_submissions (accumulated (self m))) as [_ ->].
  rewrite !app_nil_r. repeat split; reflexivity.
Qed.

(** C4, as the code has it.  When the block raises, [__exit__] prints
    that the batch was aborted and returns [None]: it submits nothing and
    calls nothing, the session keeps what it had accumulated, and, the
    returned value being false, the [with] statement raises the block's
    exception again. *)
Theorem exit_on_exception_aborts_and_propagates :
  (forall (fuel : nat) (which_sbatch : option string) (e : exception)
          (m : machine),
      __exit__ E fuel which_sbatch (Some e) m
      = (Return VNone,
         {| self := self m;
            trace := trace m ++ [Print "Aborted due to exception."] |})) /\
  (forall (fuel : nat) (which_sbatch : option string) (size : option Z)
          (body : M unit) (tr : list event) (e : exception) (m1 : machine),
      body {| self := __init__ size; trace := tr |} = (Raise e, m1) ->
      with_AutoBatch E fuel which_sbatch size body tr
      = (Raise e,
         {| self := self m1;
            trace := trace m1 ++ [Print "Aborted due to exception."] |})).
Proof.
  split.
  - intros fuel which_sbatch e m. reflexivity.
  - intros fuel which_sbatch size body tr e m1 Hbody.
    unfold with_AutoBatch. rewrite Hbody. reflexivity.
Qed.

(** C6, as the code has it.  [add] on anything that is not a
    [SlurmFunction] raises [ValueError] on the spot, with the session and
    the trace as they were; a [ValueError] is not a [TypeError]. *)
Theorem add_rejects_other_objects :
  forall (v : value) (args : list value) (kwargs : pydict) (m : machine),
    exists msg,
      add E (ObjOther v) args kwargs m = (Raise (ValueError msg), m) /\
      exception_isinstance (ValueError msg) "ValueError" = true /\
      exception_isinstance (ValueError msg) "TypeError" = false.
Proof.
  intros v args kwargs m. eexists. split; [reflexivity|].
  split; reflexivity.
Qed.

(** C9, as the code has it.  [add] for a function whose effective
    configuration holds an unhashable value raises the interpreter's
    [TypeError], from hashing the key during the lookup in [_tasks]; the
    session and the trace stay as they were.  Lists are such values. *)
Theorem add_unhashable_configuration :
  (forall (sf : SlurmFunction) (args : list value) (kwargs : pydict)
          (m : machine) (k : string) (v : value),
      In (k, v) (conf_key E sf) -> py_hash E v = None ->
      add E (ObjSlurmFunction sf) args kwargs m = (Raise TypeError, m)) /\
  (forall items : list value, py_hash E (VList items) = None) /\
  exception_isinstance TypeError "TypeError" = true /\
  exception_isinstance TypeError "InvalidConfigError" = false.
Proof.
  split; [|split; [|split]]; try reflexivity.
  intros sf args kwargs m k v Hin Hv.
  rewrite add_slurm_function. unfold HashableDict__hash__.
  rewrite (hash_items_unhashable E _ k v Hin Hv). reflexivity.
Qed.

(** *** Completion entries *)

Lemma completion_task_plain (job_ids : list Z) (r : request) (m : machine) :
  plain_dependency (fst (fst r)) ->
  exists dep,
    completion_task E job_ids (completion_entry r) m
    = (Return tt,
       {| self := self m;
          trace := trace m ++
            [DispatchSingle (request_call r) [("dependency"%string, VStr dep)]] |}) /\
    composed_dependency job_ids (fst (fst r)) dep.
Proof.
  destruct r as [[sf args] kwargs]. unfold plain_dependency, completion_entry.
  cbn [fst snd]. intros Hplain.
  unfold completion_task, composed_dependency.
  destruct Hplain as [Hnone | (d & Hd)].
  - rewrite Hnone. cbn [truthy String.eqb negb].
    eexists. split; [reflexivity|].
    split; [intros d Hd; discriminate | reflexivity].
  - rewrite Hd. cbn [truthy].
    destruct (String.eqb_spec d "") as [->|Hne]; cbn [negb].
    + eexists. split; [reflexivity|].
      split; [intros d [= <-] Hne; congruence | reflexivity].
    + eexists. split; [reflexivity|].
      split.
      * intros d' [= <-] _. reflexivity.
      * intros [Hnone | [= ->]]; [discriminate | congruence].
Qed.

(** C7.  For completion entries whose functions have no [dependency]
    option or a string one, [_add_on_completion_tasks] submits one single
    job per entry, in order, under the one option [dependency]: the
    clause the function already has, a comma and ["afterany:"] with the
    job ids joined by colons, or that [afterany] part alone when there is
    no clause.  A function waiting on ["afterok:5"] and the jobs 10 and
    11 give ["afterok:5,afterany:10:11"]. *)
Theorem completion_dependency_composition :
  (forall (job_ids : list Z) (reqs : list request) (m : machine),
      _on_completion (self m) = map completion_entry reqs ->
      Forall (fun r => plain_dependency (fst (fst r))) reqs ->
      exists deps : list string,
        _add_on_completion_tasks E job_ids m
        = (Return tt,
           {| self := self m;
              trace := trace m ++
                zip_with (fun r dep =>
                            DispatchSingle (request_call r)
                              [("dependency"%string, VStr dep)])
                         reqs deps |}) /\
        Forall2 (fun r dep => composed_dependency job_ids (fst (fst r)) dep)
                reqs deps) /\
  (forall (sf : SlurmFunction) (args : list value) (kwargs : pydict)
          (m : machine),
      dict_get "dependency" (special_slurm_opts sf) = Some (VStr "afterok:5") ->
      completion_task E [10; 11] (ObjSlurmFunction sf, args, kwargs) m
      = (Return tt,
         {| self := self m;
            trace := trace m ++
              [DispatchSingle (request_call (sf, args, kwargs))
                 [("dependency"%string, VStr "afterok:5,afterany:10:11")]] |})).
Proof.
  split.
  - intros job_ids reqs m Hentries Hplain.
    unfold _add_on_completion_tasks. unfold bind, get_self.
    rewrite Hentries. clear Hentries.
    revert m. induction Hplain as [|r reqs Hr _ IH]; intros m.
    + exists []. split; [|constructor].
      simpl. unfold ret. rewrite app_nil_r. destruct m; reflexivity.
    + destruct (completion_task_plain job_ids r m Hr) as (dep & Hrun & Hdep).
      destruct (IH {| self := self m;
                      trace := trace m ++
                        [DispatchSingle (request_call r)
                           [("dependency"%string, VStr dep)]] |})
        as (deps & Hrest & Hdeps).
      exists (dep :: deps). split; [|constructor; assumption].
      cbn [map for_each]. unfold bind. rewrite Hrun, Hrest.
      cbn [self trace zip_with]. rewrite <- app_assoc. reflexivity.
  - intros sf args kwargs m Hdep.
    destruct (completion_task_plain [10; 11] (sf, args, kwargs) m)
      as (dep & Hrun & Hcomposed & _).
    { right. eexists. exact Hdep. }
    unfold completion_entry in Hrun. cbn [fst snd] in Hrun. rewrite Hrun.
    rewrite (Hcomposed _ Hdep ltac:(discriminate)). reflexivity.
Qed.

(** C5.  The grouping key keeps the configuration: [HashableDict] binds
    every key to the value of its last occurrence, and a configuration
    without a repeated key is kept item for item.  Two configurations are
    equal exactly when they hold the same key/value pairs, in whatever
    order, and then they have the same hash: the hash of a configuration
    is the hash of the tuple of the sorted hashes of its items, each item
    hashed as the pair of its key and its value, so it does not see the
    order of the items.  After any sequence of [add]s on a new session
    the key of each group is the configuration of one of the requests,
    the group holds the invocations of exactly the requests whose
    configuration has the same items as its key, in arrival order; every
    request has such a group; two requests are taken by one group exactly
    when their configurations have the same items; and no two groups have
    keys with the same items. *)
Theorem configurations_group_by_value :
  (forall (c : list (string * value)) (k : string),
      dict_get k (HashableDict c) = dict_get k (rev c)) /\
  (forall c : list (string * value),
      NoDup (map fst c) -> HashableDict c = c) /\
  (forall c1 c2 : list (string * value),
      NoDup (map fst c1) -> NoDup (map fst c2) ->
      (dict_eq (HashableDict c1) (HashableDict c2) = true <-> same_items c1 c2) /\
      (same_items c1 c2 ->
       HashableDict__hash__ E (HashableDict c1)
       = HashableDict__hash__ E (HashableDict c2))) /\
  (forall c1 c2 : list (string * value),
      same_itemsb c1 c2 = true <-> same_items c1 c2) /\
  (forall d1 d2 : pydict,
      d1 ≡ₚ d2 -> HashableDict__hash__ E d1 = HashableDict__hash__ E d2) /\
  (forall (d : pydict) (hvs : list Z),
      Forall2 (fun kv hv => py_hash E (snd kv) = Some hv) d hvs ->
      HashableDict__hash__ E d
      = Some (hash_tuple E
                (map (hash_int E)
                   (merge_sort Z.le
                      (zip_with
                         (fun kv hv => hash_tuple E [hash_str E (fst kv); hv])
                         d hvs)))) /\
      HashableDict__hash__ E d
      = py_hash E
          (VTuple
             (map VInt
                (merge_sort Z.le
                   (zip_with
                      (fun kv hv => hash_tuple E [hash_str E (fst kv); hv])
                      d hvs))))) /\
  (py_hash E VNone = Some (hash_none E) /\
   (forall n, py_hash E (VInt n) = Some (hash_int E n)) /\
   (forall s, py_hash E (VStr s) = Some (hash_str E s)) /\
   (forall hs : list Z,
       Sorted Z.le (merge_sort Z.le hs) /\ merge_sort Z.le hs ≡ₚ hs)) /\
  (forall (size : option Z) (reqs : list request) (m : machine),
      Forall (fun r => NoDup (map fst (conf_of E (fst (fst r))))) reqs ->
      add_all E reqs {| self := __init__ size; trace := [] |} = (Return tt, m) ->
      (forall b, In b (_tasks (self m)) ->
         (exists r, In r reqs /\ bucket_key b = conf_of E (fst (fst r))) /\
         bucket_calls b
         = map request_call
             (List.filter
                (fun r => same_itemsb (bucket_key b) (conf_of E (fst (fst r))))
                reqs)) /\
      (forall r, In r reqs ->
         exists b, In b (_tasks (self m)) /\
                   same_items (bucket_key b) (conf_of E (fst (fst r)))) /\
      (forall r1 r2, In r1 reqs -> In r2 reqs ->
         (exists b, In b (_tasks (self m)) /\
                    same_itemsb (bucket_key b) (conf_of E (fst (fst r1))) = true /\
                    same_itemsb (bucket_key b) (conf_of E (fst (fst r2))) = true) <->
         same_items (conf_of E (fst (fst r1))) (conf_of E (fst (fst r2)))) /\
      (forall i j bi bj,
         _tasks (self m) !! i = Some bi -> _tasks (self m) !! j = Some bj ->
         same_items (bucket_key bi) (bucket_key bj) -> i = j)).
Proof.
  split; [|split; [|split; [|split; [|split; [|split; [|split]]]]]].
  - intros c k. apply dict_of_items_get.
  - intros c. apply dict_of_items_id.
  - intros c1 c2 Hnd1 Hnd2. unfold HashableDict.
    rewrite !dict_of_items_id by assumption. split.
    + apply dict_eq_same_items; assumption.
    + intros Hsame. apply HashableDict_hash_Permutation.
      apply Permutation_same_items; assumption.
  - apply same_itemsb_spec.
  - apply HashableDict_hash_Permutation.
  - intros d hvs Hhvs. unfold HashableDict__hash__.
    rewrite (hash_items_formula E d hvs Hhvs). cbn [option_map].
    split; [reflexivity|]. rewrite py_hash_ints. reflexivity.
  - split; [reflexivity|]. split; [reflexivity|]. split; [reflexivity|].
    intros hs.
    split; [apply Sorted_merge_sort; apply _ | apply merge_sort_Permutation].
  - intros size reqs m Hdict Hrun.
    destruct (add_all_grouped E reqs []
                {| self := __init__ size; trace := [] |} m
                (grouped_init E) Hrun)
      as ((Hok & Hdist & Hcover) & _).
    cbn [app] in *.
    rewrite Forall_forall in Hdict. rewrite Forall_forall in Hok.
    assert (Hkey : forall r, In r reqs -> key_of E r = conf_of E (fst (fst r))).
    { intros r Hr. unfold key_of, conf_key, HashableDict.
      apply dict_of_items_id. apply Hdict. apply list_elem_of_In. exact Hr. }
    assert (Hnd : forall b, In b (_tasks (self m)) ->
                            NoDup (map fst (bucket_key b))).
    { intros b Hb. apply (bucket_ok_NoDup E reqs). apply Hok.
      apply list_elem_of_In. exact Hb. }
    assert (Hcover' : forall r, In r reqs ->
              exists b, In b (_tasks (self m)) /\
                        same_items (bucket_key b) (conf_of E (fst (fst r)))).
    { intros r Hr. destruct (Hcover r Hr) as (b & Hb & Heq).
      exists b. split; [assumption|].
      rewrite (Hkey r Hr) in Heq. apply dict_eq_same_items in Heq.
      - exact Heq.
      - apply Hnd. assumption.
      - apply Hdict. apply list_elem_of_In. exact Hr. }
    split; [|split; [exact Hcover'|split]].
    + intros b Hb.
      destruct (Hok b ltac:(apply list_elem_of_In; exact Hb))
        as ((r0 & Hr0 & Hk0) & _ & Hcalls).
      split.
      * exists r0. split; [assumption|]. rewrite Hk0. apply Hkey. assumption.
      * rewrite Hcalls. f_equal. apply List.filter_ext_in. intros r Hr.
        rewrite (Hkey r Hr). apply dict_eq_same_itemsb.
        -- apply Hnd. assumption.
        -- apply Hdict. apply list_elem_of_In. exact Hr.
    + intros r1 r2 Hr1 Hr2. split.
      * intros (b & _ & H1 & H2) k v.
        apply same_itemsb_spec in H1, H2.
        rewrite <- (H1 k v). apply H2.
      * intros Hsame. destruct (Hcover' r1 Hr1) as (b & Hb & Hb1).
        exists b. split; [assumption|].
        split; apply same_itemsb_spec; [exact Hb1|].
        intros k v. rewrite (Hb1 k v). apply Hsame.
    + intros i j bi bj Hi Hj Hsame.
      apply (distinct_keys_lookup E reqs (_tasks (self m))
               ltac:(apply Forall_forall; exact Hok) Hdist i j bi bj Hi Hj).
      apply dict_eq_same_items.
      * apply Hnd. apply list_elem_of_In. eapply list_elem_of_lookup_2. exact Hi.
      * apply Hnd. apply list_elem_of_In. eapply list_elem_of_lookup_2. exact Hj.
      * exact Hsame.
Qed.

End Claims.

(** * The claims on concrete sessions *)

(** C3, at the code.  Leaving the block on a host without [sbatch] returns
    without touching the completion list: the entries registered with
    [on_completion] are neither called in this process nor submitted, and
    stay in the session.  With two groups and the completion entry
    [collect], only the three grouped invocations are called. *)
Theorem run_locally_leaves_completion_entries :
  (forall (E : Collaborators) (fuel : nat) (m : machine),
      exists m',
        __exit__ E fuel None None m = (Return VNone, m') /\
        local_calls (trace m') = local_calls (trace m) ++ accumulated (self m) /\
        submitted_singles (trace m') = submitted_singles (trace m) /\
        _on_completion (self m') = _on_completion (self m)) /\
  __exit__ Sample.env 3 None None Sample.mixed_machine
  = (Return VNone,
     {| self := {| max_batch_size := None;
                   _tasks := [];
                   _on_completion :=
                     [(ObjSlurmFunction Sample.after5, [VStr "done"], [])] |};
        trace :=
          [Print "No Slurm environment available. Running batch locally.";
           LocalCall "f" [VInt 1] []; LocalCall "f2" [VInt 3] [];
           LocalCall "g" [VInt 2] []] |}).
Proof.
  split; [apply exit_without_sbatch_completion|].
  vm_compute. reflexivity.
Qed.

(** C1 on five calls under one configuration and a bound of two. *)
Lemma distribute_partitions_each_group_witness :
  max_batch_size (Sample.five_session (Some 2)) = Some 2 /\
  1 <= 2 /\
  Forall (fun b => (length (bucket_calls b) <= 5)%nat)
         (_tasks (Sample.five_session (Some 2))) /\
  exists chunkss r m',
    distribute Sample.env 5
      {| self := Sample.five_session (Some 2); trace := [] |} = (r, m') /\
    r <> OutOfFuel /\
    Forall2 (fun b chunks => chunking 2 (bucket_calls b) chunks)
            (_tasks (Sample.five_session (Some 2))) chunkss /\
    submitted_batches (trace m')
    = submitted_batches [] ++
      concat (zip_with
        (fun b chunks => map (fun c => (c, bucket_key b)) chunks)
        (_tasks (Sample.five_session (Some 2))) chunkss) /\
    (forall ids, r = Return ids -> length ids = length (concat chunkss)).
Proof.
  assert (H1 : max_batch_size (Sample.five_session (Some 2)) = Some 2)
    by reflexivity.
  assert (H2 : 1 <= 2) by lia.
  assert (H3 : Forall (fun b => (length (bucket_calls b) <= 5)%nat)
                      (_tasks (Sample.five_session (Some 2))))
    by (vm_compute; repeat constructor).
  split; [exact H1|]. split; [exact H2|]. split; [exact H3|].
  exact (proj1 (distribute_partitions_each_group Sample.env)
           2 (Sample.five_session (Some 2)) [] 5%nat H1 H2 H3).
Defined.

(** C10 on the same five calls: a bound of two ends within five
    iterations. *)
Lemma distribute_terminates_for_positive_bound_witness :
  (max_batch_size (Sample.five_session (Some 2)) = None \/
   exists size, max_batch_size (Sample.five_session (Some 2)) = Some size /\
                1 <= size) /\
  (length (accumulated (Sample.five_session (Some 2%Z))) <= 5)%nat /\
  fst (distribute Sample.env 5
         {| self := Sample.five_session (Some 2); trace := [] |}) <> OutOfFuel.
Proof.
  assert (H1 : max_batch_size (Sample.five_session (Some 2)) = None \/
               exists size,
                 max_batch_size (Sample.five_session (Some 2)) = Some size /\
                 1 <= size).
  { right. exists 2. split; [reflexivity | lia]. }
  assert (H2 : (length (accumulated (Sample.five_session (Some 2%Z))) <= 5)%nat)
    by (vm_compute; repeat constructor).
  split; [exact H1|]. split; [exact H2|].
  exact (proj1 (distribute_terminates_for_positive_bound Sample.env)
           (Sample.five_session (Some 2)) [] H1 5%nat H2).
Defined.

(** C8 with an [sbatch] on the path. *)
Lemma exit_selects_terminal_path_witness :
  "/usr/bin/sbatch"%string <> ""%string /\
  exists r m',
    distribute Sample.env 3 Sample.mixed_machine = (r, m') /\
    __exit__ Sample.env 3 (Some "/usr/bin/sbatch"%string) None Sample.mixed_machine
    = (match r with
       | Return _ => Return VNone
       | Raise e => Raise e
       | OutOfFuel => OutOfFuel
       end, m') /\
    local_calls (trace m') = local_calls (trace Sample.mixed_machine).
Proof.
  assert (H1 : "/usr/bin/sbatch"%string <> ""%string) by discriminate.
  split; [exact H1|].
  exact (proj2 (exit_selects_terminal_path Sample.env)
           3%nat "/usr/bin/sbatch"%string Sample.mixed_machine H1).
Defined.

(** C4, as the code has it, on a block that fails after five calls. *)
Lemma exit_on_exception_aborts_and_propagates_witness :
  Sample.failing_body {| self := __init__ (Some 2); trace := [] |}
  = (Raise (OtherException "RuntimeError"),
     {| self := Sample.five_session (Some 2); trace := [] |}) /\
  with_AutoBatch Sample.env 3 (Some "/usr/bin/sbatch"%string) (Some 2)
    Sample.failing_body []
  = (Raise (OtherException "RuntimeError"),
     {| self := Sample.five_session (Some 2);
        trace := [] ++ [Print "Aborted due to exception."] |}).
Proof.
  assert (H1 : Sample.failing_body {| self := __init__ (Some 2); trace := [] |}
               = (Raise (OtherException "RuntimeError"),
                  {| self := Sample.five_session (Some 2); trace := [] |}))
    by (vm_compute; reflexivity).
  split; [exact H1|].
  exact (proj2 (exit_on_exception_aborts_and_propagates Sample.env)
           3%nat (Some "/usr/bin/sbatch"%string) (Some 2) Sample.failing_body []
           (OtherException "RuntimeError")
           {| self := Sample.five_session (Some 2); trace := [] |} H1).
Defined.

(** C4 as stated fails: the exception of the block comes out of the [with]
    statement. *)
Lemma with_statement_raises_again :
  fst (with_AutoBatch Sample.env 3 (Some "/usr/bin/sbatch"%string) (Some 2)
         Sample.failing_body [])
  = Raise (OtherException "RuntimeError") /\
  fst (with_AutoBatch Sample.env 3 (Some "/usr/bin/sbatch"%string) (Some 2)
         Sample.failing_body [])
  <> Return tt.
Proof. split; [vm_compute; reflexivity | vm_compute; discriminate]. Qed.

(** C6 as stated fails: the error [add] raises for an integer target is a
    [ValueError], which is no [TypeError]. *)
Lemma add_raises_value_error :
  exists e,
    add Sample.env (ObjOther (VInt 3)) [VInt 1] [] (Sample.start None)
    = (Raise e, Sample.start None) /\
    exception_isinstance e "ValueError" = true /\
    exception_isinstance e "TypeError" = false.
Proof. eexists. split; [reflexivity|]. split; reflexivity. Qed.

(** C9, as the code has it, on a function with a list-valued option. *)
Lemma add_unhashable_configuration_witness :
  In ("nodelist"%string, VList [VStr "n1"; VStr "n2"])
     (conf_key Sample.env Sample.h_list) /\
  py_hash Sample.env (VList [VStr "n1"; VStr "n2"]) = None /\
  add Sample.env (ObjSlurmFunction Sample.h_list) [] [] (Sample.start None)
  = (Raise TypeError, Sample.start None).
Proof.
  assert (H1 : In ("nodelist"%string, VList [VStr "n1"; VStr "n2"])
                  (conf_key Sample.env Sample.h_list))
    by (left; reflexivity).
  assert (H2 : py_hash Sample.env (VList [VStr "n1"; VStr "n2"]) = None)
    by reflexivity.
  split; [exact H1|]. split; [exact H2|].
  exact (proj1 (add_unhashable_configuration Sample.env)
           Sample.h_list [] [] (Sample.start None)
           "nodelist"%string (VList [VStr "n1"; VStr "n2"]) H1 H2).
Defined.

(** C9 as stated fails: the error is a [TypeError], not an
    [InvalidConfigError]. *)
Lemma add_raises_type_error :
  exists e,
    add Sample.env (ObjSlurmFunction Sample.h_list) [] [] (Sample.start None)
    = (Raise e, Sample.start None) /\
    exception_isinstance e "TypeError" = true /\
    exception_isinstance e "InvalidConfigError" = false.
Proof. eexists. split; [reflexivity|]. split; reflexivity. Qed.

(** C7 on two completion entries and the jobs 10 and 11. *)
Lemma completion_dependency_composition_witness :
  _on_completion (self Sample.completion_machine)
  = map completion_entry Sample.completion_requests /\
  Forall (fun r => plain_dependency (fst (fst r))) Sample.completion_requests /\
  exists deps : list string,
    _add_on_completion_tasks Sample.env [10; 11] Sample.completion_machine
    = (Return tt,
       {| self := self Sample.completion_machine;
          trace := trace Sample.completion_machine ++
            zip_with (fun r dep =>
                        DispatchSingle (request_call r)
                          [("dependency"%string, VStr dep)])
                     Sample.completion_requests deps |}) /\
    Forall2 (fun r dep => composed_dependency [10; 11] (fst (fst r)) dep)
            Sample.completion_requests deps.
Proof.
  assert (H1 : _on_completion (self Sample.completion_machine)
               = map completion_entry Sample.completion_requests)
    by reflexivity.
  assert (H2 : Forall (fun r => plain_dependency (fst (fst r)))
                      Sample.completion_requests).
  { constructor; [right; eexists; reflexivity|].
    constructor; [left; reflexivity | constructor]. }
  split; [exact H1|]. split; [exact H2|].
  exact (proj1 (completion_dependency_composition Sample.env)
           [10; 11] Sample.completion_requests Sample.completion_machine H1 H2).
Defined.

(** C5 on three requests, two of them under the same options in different
    orders: the invocations of [f] and [f2] end in one group, under the
    configuration of [f], and the invocation of [g], whose configuration
    differs, in a group of its own. *)
Lemma configurations_group_by_value_witness :
  Forall (fun r => NoDup (map fst (conf_of Sample.env (fst (fst r)))))
         Sample.three_requests /\
  add_all Sample.env Sample.three_requests
    {| self := __init__ None; trace := [] |}
  = (Return tt,
     {| self := {| max_batch_size := None;
                   _tasks := Sample.three_groups;
                   _on_completion := [] |};
        trace := [] |}) /\
  (forall b, In b Sample.three_groups ->
     (exists r, In r Sample.three_requests /\
                bucket_key b = conf_of Sample.env (fst (fst r))) /\
     bucket_calls b
     = map request_call
         (List.filter
            (fun r => same_itemsb (bucket_key b)
                                  (conf_of Sample.env (fst (fst r))))
            Sample.three_requests)) /\
  (forall r, In r Sample.three_requests ->
     exists b, In b Sample.three_groups /\
               same_items (bucket_key b) (conf_of Sample.env (fst (fst r)))) /\
  (forall r1 r2, In r1 Sample.three_requests -> In r2 Sample.three_requests ->
     (exists b, In b Sample.three_groups /\
                same_itemsb (bucket_key b)
                            (conf_of Sample.env (fst (fst r1))) = true /\
                same_itemsb (bucket_key b)
                            (conf_of Sample.env (fst (fst r2))) = true) <->
     same_items (conf_of Sample.env (fst (fst r1)))
                (conf_of Sample.env (fst (fst r2)))) /\
  (forall i j bi bj,
     Sample.three_groups !! i = Some bi -> Sample.three_groups !! j = Some bj ->
     same_items (bucket_key bi) (bucket_key bj) -> i = j).
Proof.
  assert (H1 : Forall (fun r => NoDup (map fst (conf_of Sample.env (fst (fst r)))))
                      Sample.three_requests)
    by (apply (bool_decide_unpack _); vm_compute; exact I).
  assert (H2 : add_all Sample.env Sample.three_requests
                 {| self := __init__ None; trace := [] |}
               = (Return tt,
                  {| self := {| max_batch_size := None;
                                _tasks := Sample.three_groups;
                                _on_completion := [] |};
                     trace := [] |}))
    by (vm_compute; reflexivity).
  split; [exact H1|]. split; [exact H2|].
  exact (proj2 (proj2 (proj2 (proj2 (proj2 (proj2 (proj2
           (configurations_group_by_value Sample.env)))))))
           None Sample.three_requests _ H1 H2).
Defined.


(** * Further properties of the module *)

(** ** What one [add] does to the groups *)

Lemma tasks_append_accumulated (h : Z) (k : pydict) (c : _FunctionCall)
    (tasks : list bucket) :
  concat (map bucket_calls (tasks_append h k c tasks))
  ≡ₚ concat (map bucket_calls tasks) ++ [c].
Proof.
  induction tasks as [|b tasks IH]; [reflexivity|].
  cbn [tasks_append].
  destruct ((bucket_hash b =? h) && dict_eq (bucket_key b) k).
  - cbn [map concat bucket_calls]. rewrite <- !app_assoc.
    apply Permutation_app_head. apply Permutation_app_comm.
  - cbn [map concat]. rewrite IH, app_assoc. reflexivity.
Qed.

(** The buckets keep their places, keys and hashes; at most one of them
    gets the call at its end. *)
Lemma tasks_append_lookup (h : Z) (k : pydict) (c : _FunctionCall)
    (tasks : list bucket) (i : nat) (b : bucket) :
  tasks !! i = Some b ->
  exists b',
    tasks_append h k c tasks !! i = Some b' /\
    bucket_key b' = bucket_key b /\ bucket_hash b' = bucket_hash b /\
    (bucket_calls b' = bucket_calls b \/
     bucket_calls b' = bucket_calls b ++ [c]).
Proof.
  revert i. induction tasks as [|b0 tasks IH]; intros i Hi.
  - rewrite lookup_nil in Hi. discriminate.
  - cbn [tasks_append].
    destruct ((bucket_hash b0 =? h) && dict_eq (bucket_key b0) k).
    + destruct i as [|i]; simpl in Hi |- *.
      * injection Hi as <-. eexists. split; [reflexivity|]. simpl. auto.
      * exists b. auto.
    + destruct i as [|i]; simpl in Hi |- *.
      * exists b. auto.
      * apply IH. assumption.
Qed.

(** The list of keys grows at its end, by the new key or not at all. *)
Lemma tasks_append_keys (h : Z) (k : pydict) (c : _FunctionCall)
    (tasks : list bucket) :
  map bucket_key (tasks_append h k c tasks) = map bucket_key tasks \/
  map bucket_key (tasks_append h k c tasks) = map bucket_key tasks ++ [k].
Proof.
  induction tasks as [|b tasks IH]; [right; reflexivity|].
  cbn [tasks_append].
  destruct ((bucket_hash b =? h) && dict_eq (bucket_key b) k).
  - left. reflexivity.
  - cbn [map]. destruct IH as [-> | ->]; [left | right]; reflexivity.
Qed.

(** ** Bounds below one *)

Lemma slice_from_nonpositive {A} (l : list A) (b : Z) :
  b <= 0 -> l <> [] -> slice_from l b <> [].
Proof.
  intros Hb Hl Hnil. apply (f_equal length) in Hnil.
  unfold slice_from in Hnil. rewrite length_drop in Hnil. simpl in Hnil.
  destruct l as [|x l]; [congruence|]. simpl length in Hnil.
  unfold slice_bound in Hnil.
  destruct (Z.ltb_spec b 0); lia.
Qed.

(** ** Slices that take everything *)

Lemma slice_to_all {A} (l : list A) (b : Z) :
  1 <= b -> Z.of_nat (length l) <= b -> slice_to l b = l.
Proof.
  intros Hb Hlen. unfold slice_to. rewrite slice_bound_pos by lia.
  rewrite Z.min_r by lia. rewrite Nat2Z.id. apply firstn_all.
Qed.

Lemma slice_from_all {A} (l : list A) (b : Z) :
  1 <= b -> Z.of_nat (length l) <= b -> slice_from l b = [].
Proof.
  intros Hb Hlen. unfold slice_from. rewrite slice_bound_pos by lia.
  rewrite Z.min_r by lia. rewrite Nat2Z.id. apply drop_all.
Qed.

(** ** Counting chunks *)

Lemma jobs_for_nothing (size : Z) : 1 <= size -> jobs_for size 0 = 0.
Proof.
  intros Hsize. unfold jobs_for. apply Z.div_small. lia.
Qed.

Lemma jobs_for_last (size : Z) (n : nat) :
  (1 <= n)%nat -> Z.of_nat n <= size -> jobs_for size n = 1.
Proof.
  intros Hn Hle. unfold jobs_for.
  replace (Z.of_nat n + size - 1) with (Z.of_nat n - 1 + 1 * size) by lia.
  rewrite Z.div_add by lia. rewrite Z.div_small by lia. reflexivity.
Qed.

Lemma jobs_for_full (size : Z) (n : nat) (k : nat) :
  1 <= size -> Z.of_nat k = size ->
  jobs_for size (k + n) = 1 + jobs_for size n.
Proof.
  intros Hsize Hk. unfold jobs_for.
  replace (Z.of_nat (k + n) + size - 1)
    with (Z.of_nat n + size - 1 + 1 * size) by lia.
  rewrite Z.div_add by lia. lia.
Qed.

(** A chunking of [n] items has as many chunks as [n] items fill. *)
Lemma chunking_count {A} (size : Z) (chunks : list (list A)) :
  1 <= size ->
  forall calls : list A,
    chunking size calls chunks ->
    Z.of_nat (length chunks) = jobs_for size (length calls).
Proof.
  intros Hsize.
  induction chunks as [|c chunks IH]; intros calls (Hcat & Hall & Hfull).
  - simpl in Hcat. subst calls. symmetry. apply jobs_for_nothing. assumption.
  - inversion Hall as [|? ? [Hne Hle] Hall']; subst.
    destruct chunks as [|c' chunks].
    + cbn [concat length]. rewrite app_nil_r.
      rewrite jobs_for_last; [reflexivity | | assumption].
      destruct c; [congruence | simpl; lia].
    + assert (Hc : Z.of_nat (length c) = size).
      { apply (Hfull 0%nat c); [reflexivity | simpl; lia]. }
      change (concat (c :: c' :: chunks)) with (c ++ concat (c' :: chunks)).
      rewrite length_app.
      rewrite (jobs_for_full size _ (length c) Hsize Hc).
      rewrite <- (IH (concat (c' :: chunks))).
      * cbn [length]. lia.
      * split; [reflexivity|]. split; [assumption|].
        intros i x Hi Hlt. apply (Hfull (S i) x); [exact Hi | simpl in *; lia].
Qed.

Section Extras.

Variable E : Collaborators.

(** X1.  An [add] that returns calls nothing outside and leaves the bound
    and the completion list alone.  The session then holds the invocations
    it held plus the new one, each once; every group keeps its place, its
    key and its invocations in their order, one group at most getting the
    new invocation at its end; and the list of group keys is as before or
    has the key of the new invocation added at its end. *)
Theorem add_keeps_every_invocation :
  forall (sf : SlurmFunction) (args : list value) (kwargs : pydict)
         (m m' : machine),
    add E (ObjSlurmFunction sf) args kwargs m = (Return tt, m') ->
    trace m' = trace m /\
    max_batch_size (self m') = max_batch_size (self m) /\
    _on_completion (self m') = _on_completion (self m) /\
    accumulated (self m')
    ≡ₚ accumulated (self m) ++ [request_call (sf, args, kwargs)] /\
    (forall i b, _tasks (self m) !! i = Some b ->
       exists b',
         _tasks (self m') !! i = Some b' /\
         bucket_key b' = bucket_key b /\
         (bucket_calls b' = bucket_calls b \/
          bucket_calls b' = bucket_calls b ++ [request_call (sf, args, kwargs)])) /\
    (map bucket_key (_tasks (self m')) = map bucket_key (_tasks (self m)) \/
     map bucket_key (_tasks (self m'))
     = map bucket_key (_tasks (self m)) ++ [conf_key E sf]).
Proof.
  intros sf args kwargs m m' Hadd.
  rewrite add_slurm_function in Hadd.
  destruct (HashableDict__hash__ E (conf_key E sf)) as [h|]; [|discriminate].
  injection Hadd as <-. cbn [self trace with_tasks max_batch_size
                              _on_completion _tasks].
  split; [reflexivity|]. split; [reflexivity|]. split; [reflexivity|].
  split; [apply tasks_append_accumulated|].
  split; [|apply tasks_append_keys].
  intros i b Hi.
  destruct (tasks_append_lookup h (conf_key E sf)
              (request_call (sf, args, kwargs)) _ i b Hi)
    as (b' & Hb' & Hkey & _ & Hcalls).
  exists b'. auto.
Qed.

(** X2.  [add] on a [SlurmFunction] returns exactly when every value of the
    effective configuration of the function is hashable. *)
Theorem add_returns_iff_hashable :
  forall (sf : SlurmFunction) (args : list value) (kwargs : pydict)
         (m : machine),
    (exists m', add E (ObjSlurmFunction sf) args kwargs m = (Return tt, m')) <->
    (forall k v, In (k, v) (conf_key E sf) -> py_hash E v <> None).
Proof.
  intros sf args kwargs m. rewrite add_slurm_function. split.
  - intros (m' & Hadd) k v Hin Hv.
    unfold HashableDict__hash__ in Hadd.
    rewrite (hash_items_unhashable E _ k v Hin Hv) in Hadd. discriminate.
  - intros Hall. pose proof (hash_items_hashable E _ Hall) as Hh.
    unfold HashableDict__hash__.
    destruct (hash_items E (conf_key E sf)); [|congruence].
    eexists. reflexivity.
Qed.

Lemma distribute_chunks_nonpositive (size : Z) (conf : pydict) (fuel : nat) :
  size <= 0 ->
  forall (calls : list _FunctionCall) (job_ids : list Z) (m : machine),
    calls <> [] ->
    fst (distribute_chunks E fuel size conf calls job_ids m) = OutOfFuel.
Proof.
  intros Hsize.
  induction fuel as [|fuel IH]; intros calls job_ids m Hne;
    (destruct calls as [|c calls]; [congruence|]).
  - reflexivity.
  - rewrite distribute_chunks_step. apply IH.
    apply slice_from_nonpositive; assumption.
Qed.

Lemma distribute_bounded_nonpositive (size : Z) (fuel : nat)
    (tasks : list bucket) :
  size <= 0 ->
  forall (job_ids : list Z) (m : machine),
    Exists (fun b => bucket_calls b <> []) tasks ->
    fst (distribute_bounded E fuel size tasks job_ids m) = OutOfFuel.
Proof.
  intros Hsize.
  induction tasks as [|b tasks IH]; intros job_ids m Hex.
  - inversion Hex.
  - cbn [distribute_bounded]. unfold bind.
    destruct (bucket_calls b) as [|c calls] eqn:Hcalls.
    + rewrite distribute_chunks_nil. apply IH.
      inversion Hex as [? ? Hb|? ? Hrest]; subst; [congruence | assumption].
    + pose proof (distribute_chunks_nonpositive size (bucket_key b) fuel Hsize
                    (c :: calls) job_ids m ltac:(discriminate)) as Hout.
      destruct (distribute_chunks E fuel size (bucket_key b) (c :: calls) job_ids m)
        as [[ids|e|] m1]; simpl in Hout; try discriminate.
      reflexivity.
Qed.

(** X3.  A negative [max_batch_size] keeps [distribute] from ending as soon
    as one group is not empty: a slice from a negative bound of a non-empty
    list is never empty, so the chunk loop exhausts every budget, and
    nothing comes back, neither job ids nor an exception. *)
Theorem distribute_negative_bound_never_ends :
  forall (size : Z) (s : AutoBatch) (tr : list event) (fuel : nat),
    max_batch_size s = Some size -> size < 0 ->
    Exists (fun b => bucket_calls b <> []) (_tasks s) ->
    fst (distribute E fuel {| self := s; trace := tr |}) = OutOfFuel /\
    _tasks (self (snd (distribute E fuel {| self := s; trace := tr |})))
    = _tasks s.
Proof.
  intros size s tr fuel Hsize Hneg Hex.
  pose proof (distribute_bounded_nonpositive size fuel (_tasks s)
                ltac:(lia) [] {| self := s; trace := tr |} Hex) as Hout.
  destruct (distribute_bounded_events E size fuel (_tasks s) []
              {| self := s; trace := tr |}) as (r & evs & Hrun & _).
  rewrite Hrun in Hout. simpl in Hout. subst r.
  assert (Hdist : distribute E fuel {| self := s; trace := tr |}
                  = (OutOfFuel, {| self := s; trace := tr ++ evs |})).
  { unfold distribute. unfold bind at 1. unfold get_self. cbn [self].
    rewrite Hsize. unfold bind at 1. rewrite Hrun. reflexivity. }
  rewrite Hdist. split; reflexivity.
Qed.

(** ** The job ids [distribute] returns *)

Lemma assigned_ids_app (tr evs1 evs2 : list event) :
  assigned_ids E tr (evs1 ++ evs2)
  = assigned_ids E tr evs1 ++ assigned_ids E (tr ++ evs1) evs2.
Proof.
  revert tr. induction evs1 as [|e evs1 IH]; intros tr.
  - simpl. rewrite app_nil_r. reflexivity.
  - cbn [app assigned_ids]. rewrite IH, <- app_assoc. reflexivity.
Qed.

Lemma distribute_chunks_ids (size : Z) (conf : pydict) (fuel : nat) :
  forall (calls : list _FunctionCall) (job_ids : list Z) (m : machine),
    exists r evs,
      distribute_chunks E fuel size conf calls job_ids m
      = (r, {| self := self m; trace := trace m ++ evs |}) /\
      Forall is_batch evs /\
      (forall ids, r = Return ids ->
                   ids = job_ids ++ assigned_ids E (trace m) evs).
Proof.
  induction fuel as [|fuel IH]; intros calls job_ids m.
  - destruct calls as [|c calls].
    + exists (Return job_ids), []. rewrite !app_nil_r.
      split; [destruct m; reflexivity|].
      split; [constructor | congruence].
    + exists OutOfFuel, []. rewrite app_nil_r.
      split; [destruct m; reflexivity|].
      split; [constructor | discriminate].
  - destruct calls as [|c calls].
    + exists (Return job_ids), []. rewrite !app_nil_r.
      split; [destruct m; reflexivity|].
      split; [constructor | congruence].
    + rewrite distribute_chunks_step.
      edestruct IH as (r & evs & Hrun & Hev & Hids). rewrite Hrun.
      cbn [self trace] in *.
      exists r, (DispatchBatch (slice_to (c :: calls) size) conf :: evs).
      rewrite <- app_assoc. split; [reflexivity|].
      split; [constructor; [exact I | assumption]|].
      intros ids Hret. rewrite (Hids ids Hret), <- app_assoc. reflexivity.
Qed.

Lemma distribute_bounded_ids (size : Z) (fuel : nat) (tasks : list bucket) :
  forall (job_ids : list Z) (m : machine),
    exists r evs,
      distribute_bounded E fuel size tasks job_ids m
      = (r, {| self := self m; trace := trace m ++ evs |}) /\
      Forall is_batch evs /\
      (forall ids, r = Return ids ->
                   ids = job_ids ++ assigned_ids E (trace m) evs).
Proof.
  induction tasks as [|b tasks IH]; intros job_ids m.
  - exists (Return job_ids), []. rewrite !app_nil_r.
    split; [destruct m; reflexivity|].
    split; [constructor | congruence].
  - cbn [distribute_bounded]. unfold bind.
    destruct (distribute_chunks_ids size (bucket_key b) fuel
                (bucket_calls b) job_ids m)
      as (r1 & evs1 & Hrun1 & Hev1 & Hids1).
    rewrite Hrun1.
    destruct r1 as [ids1|e|].
    + destruct (IH ids1 {| self := self m; trace := trace m ++ evs1 |})
        as (r2 & evs2 & Hrun2 & Hev2 & Hids2).
      rewrite Hrun2. cbn [self trace] in *.
      exists r2, (evs1 ++ evs2). rewrite <- app_assoc.
      split; [reflexivity|].
      split; [apply Forall_app; split; assumption|].
      intros ids Hret. rewrite (Hids2 ids Hret), (Hids1 ids1 eq_refl).
      rewrite assigned_ids_app, <- app_assoc. reflexivity.
    + exists (Raise e), evs1. split; [reflexivity|].
      split; [assumption | discriminate].
    + exists OutOfFuel, evs1. split; [reflexivity|].
      split; [assumption | discriminate].
Qed.

Lemma distribute_whole_ids (tasks : list bucket) :
  forall (job_ids : list Z) (m : machine),
    exists evs,
      distribute_whole E tasks job_ids m
      = (Return (job_ids ++ assigned_ids E (trace m) evs),
         {| self := self m; trace := trace m ++ evs |}) /\
      Forall is_batch evs.
Proof.
  induction tasks as [|b tasks IH]; intros job_ids m.
  - exists []. rewrite !app_nil_r.
    split; [destruct m; reflexivity | constructor].
  - cbn [distribute_whole]. unfold bind at 1. unfold dispatch_batch_to_slurm.
    unfold bind, emit, get_trace, ret.
    edestruct IH as (evs & Hrun & Hev). rewrite Hrun. cbn [self trace].
    exists (DispatchBatch (bucket_calls b) (bucket_key b) :: evs).
    rewrite <- !app_assoc. split; [reflexivity|].
    constructor; [exact I | assumption].
Qed.

Lemma completion_loop_plain (job_ids : list Z) (reqs : list request) :
  Forall (fun r => plain_dependency (fst (fst r))) reqs ->
  forall m : machine,
    exists deps : list string,
      for_each (map completion_entry reqs) (completion_task E job_ids) m
      = (Return tt,
         {| self := self m;
            trace := trace m ++
              zip_with (fun r dep =>
                          DispatchSingle (request_call r)
                            [("dependency"%string, VStr dep)])
                       reqs deps |}) /\
      Forall2 (fun r dep => composed_dependency job_ids (fst (fst r)) dep)
              reqs deps.
Proof.
  induction 1 as [|r reqs Hr _ IH]; intros m.
  - exists []. split; [|constructor].
    simpl. unfold ret. rewrite app_nil_r. destruct m; reflexivity.
  - destruct (completion_task_plain E job_ids r m Hr) as (dep & Hrun & Hdep).
    destruct (IH {| self := self m;
                    trace := trace m ++
                      [DispatchSingle (request_call r)
                         [("dependency"%string, VStr dep)]] |})
      as (deps & Hrest & Hdeps).
    exists (dep :: deps). split; [|constructor; assumption].
    cbn [map for_each]. unfold bind. rewrite Hrun, Hrest.
    cbn [self trace zip_with]. rewrite <- app_assoc. reflexivity.
Qed.

(** The two loops of [distribute] over the groups, whatever the bound. *)
Lemma distribute_loops_ids (fuel : nat) (m : machine) :
  exists r evs,
    match max_batch_size (self m) with
    | None => distribute_whole E (_tasks (self m)) []
    | Some size => distribute_bounded E fuel size (_tasks (self m)) []
    end m = (r, {| self := self m; trace := trace m ++ evs |}) /\
    Forall is_batch evs /\
    (forall ids, r = Return ids -> ids = assigned_ids E (trace m) evs).
Proof.
  destruct (max_batch_size (self m)) as [size|].
  - apply distribute_bounded_ids.
  - destruct (distribute_whole_ids (_tasks (self m)) [] m) as (evs & Hrun & Hev).
    eexists _, evs. split; [exact Hrun|]. split; [assumption|].
    intros ids [= <-]. reflexivity.
Qed.

(** ** What the batch loops submit, whatever the bound *)

Lemma batch_calls_app (tr1 tr2 : list event) :
  batch_calls (tr1 ++ tr2) = batch_calls tr1 ++ batch_calls tr2.
Proof.
  unfold batch_calls. rewrite submitted_batches_app, map_app, concat_app.
  reflexivity.
Qed.

Lemma distribute_chunks_cover (size : Z) (conf : pydict) (fuel : nat) :
  forall (calls : list _FunctionCall) (job_ids : list Z) (m : machine),
    exists r evs,
      distribute_chunks E fuel size conf calls job_ids m
      = (r, {| self := self m; trace := trace m ++ evs |}) /\
      Forall (fun job => snd job = conf /\
                         Forall (fun c => In c calls) (fst job))
             (submitted_batches evs) /\
      (forall ids, r = Return ids -> batch_calls evs = calls).
Proof.
  induction fuel as [|fuel IH]; intros calls job_ids m.
  - destruct calls as [|c calls].
    + exists (Return job_ids), []. rewrite !app_nil_r.
      split; [destruct m; reflexivity|]. split; [constructor | reflexivity].
    + exists OutOfFuel, []. rewrite app_nil_r.
      split; [destruct m; reflexivity|]. split; [constructor | discriminate].
  - destruct calls as [|c calls].
    + exists (Return job_ids), []. rewrite !app_nil_r.
      split; [destruct m; reflexivity|]. split; [constructor | reflexivity].
    + rewrite distribute_chunks_step.
      edestruct IH as (r & evs & Hrun & Hjobs & Hcover). rewrite Hrun.
      cbn [self trace].
      exists r, (DispatchBatch (slice_to (c :: calls) size) conf :: evs).
      rewrite <- app_assoc. split; [reflexivity|].
      assert (Hsub : forall x, In x (slice_from (c :: calls) size) ->
                               In x (c :: calls)).
      { intros x Hx. rewrite <- (slice_to_from (c :: calls) size).
        apply in_or_app. right. assumption. }
      split.
      * cbn [submitted_batches]. constructor.
        -- split; [reflexivity|]. cbn [fst snd]. apply Forall_forall.
           intros x Hx. apply list_elem_of_In in Hx.
           rewrite <- (slice_to_from (c :: calls) size).
           apply in_or_app. left. assumption.
        -- eapply Forall_impl; [exact Hjobs|].
           intros job [Hconf Hin]. split; [assumption|].
           eapply Forall_impl; [exact Hin|]. intros x Hx. apply Hsub. exact Hx.
      * intros ids Hret. unfold batch_calls in *.
        cbn [submitted_batches map concat fst].
        rewrite (Hcover ids Hret). apply slice_to_from.
Qed.

Lemma batch_within_cons (b : bucket) (tasks : list bucket)
    (job : list _FunctionCall * pydict) :
  batch_within tasks job -> batch_within (b :: tasks) job.
Proof.
  intros (b' & Hin & Hkey & Hcalls). exists b'.
  split; [right; assumption | split; assumption].
Qed.

Lemma distribute_bounded_cover (size : Z) (fuel : nat) (tasks : list bucket) :
  forall (job_ids : list Z) (m : machine),
    exists r evs,
      distribute_bounded E fuel size tasks job_ids m
      = (r, {| self := self m; trace := trace m ++ evs |}) /\
      Forall (batch_within tasks) (submitted_batches evs) /\
      (forall ids, r = Return ids ->
                   batch_calls evs = concat (map bucket_calls tasks)).
Proof.
  induction tasks as [|b tasks IH]; intros job_ids m.
  - exists (Return job_ids), []. rewrite !app_nil_r.
    split; [destruct m; reflexivity|]. split; [constructor | reflexivity].
  - cbn [distribute_bounded]. unfold bind.
    destruct (distribute_chunks_cover size (bucket_key b) fuel
                (bucket_calls b) job_ids m)
      as (r1 & evs1 & Hrun1 & Hjobs1 & Hcover1).
    rewrite Hrun1.
    assert (Hjobs1' : Forall (batch_within (b :: tasks)) (submitted_batches evs1)).
    { eapply Forall_impl; [exact Hjobs1|]. intros job [Hconf Hin].
      exists b. split; [left; reflexivity | split; assumption]. }
    destruct r1 as [ids1|e|].
    + destruct (IH ids1 {| self := self m; trace := trace m ++ evs1 |})
        as (r2 & evs2 & Hrun2 & Hjobs2 & Hcover2).
      rewrite Hrun2. cbn [self trace].
      exists r2, (evs1 ++ evs2). rewrite <- app_assoc.
      split; [reflexivity|]. split.
      * rewrite submitted_batches_app. apply Forall_app. split; [assumption|].
        eapply Forall_impl; [exact Hjobs2|]. apply batch_within_cons.
      * intros ids Hret. rewrite batch_calls_app.
        rewrite (Hcover1 ids1 eq_refl), (Hcover2 ids Hret). reflexivity.
    + exists (Raise e), evs1. split; [reflexivity|].
      split; [assumption | discriminate].
    + exists OutOfFuel, evs1. split; [reflexivity|].
      split; [assumption | discriminate].
Qed.

Lemma distribute_whole_cover (tasks : list bucket) :
  forall (job_ids : list Z) (m : machine),
    exists ids evs,
      distribute_whole E tasks job_ids m
      = (Return ids, {| self := self m; trace := trace m ++ evs |}) /\
      Forall (batch_within tasks) (submitted_batches evs) /\
      batch_calls evs = concat (map bucket_calls tasks).
Proof.
  induction tasks as [|b tasks IH]; intros job_ids m.
  - exists job_ids, []. rewrite !app_nil_r.
    split; [destruct m; reflexivity|]. split; [constructor | reflexivity].
  - cbn [distribute_whole]. unfold bind at 1. unfold dispatch_batch_to_slurm.
    unfold bind, emit, get_trace, ret.
    edestruct IH as (ids & evs & Hrun & Hjobs & Hcover). rewrite Hrun.
    cbn [self trace].
    exists ids, (DispatchBatch (bucket_calls b) (bucket_key b) :: evs).
    rewrite <- !app_assoc. split; [reflexivity|]. split.
    + cbn [submitted_batches]. constructor.
      * exists b. split; [left; reflexivity|]. split; [reflexivity|].
        cbn [fst]. apply Forall_forall. intros x Hx.
        apply list_elem_of_In. exact Hx.
      * eapply Forall_impl; [exact Hjobs|]. apply batch_within_cons.
    + unfold batch_calls in *. cbn [submitted_batches map concat fst].
      rewrite Hcover. reflexivity.
Qed.

(** The loops of [distribute] over the groups: when they return, every
    accumulated invocation has gone into a batch job, in the order the
    session holds them, and each job was made for one group. *)
Lemma distribute_loops_cover (fuel : nat) (m : machine) :
  exists r evs,
    match max_batch_size (self m) with
    | None => distribute_whole E (_tasks (self m)) []
    | Some size => distribute_bounded E fuel size (_tasks (self m)) []
    end m = (r, {| self := self m; trace := trace m ++ evs |}) /\
    Forall is_batch evs /\
    (forall e, r <> Raise e) /\
    Forall (batch_within (_tasks (self m))) (submitted_batches evs) /\
    (forall ids, r = Return ids -> batch_calls evs = accumulated (self m)).
Proof.
  destruct (max_batch_size (self m)) as [size|].
  - destruct (distribute_bounded_cover size fuel (_tasks (self m)) [] m)
      as (r & evs & Hrun & Hjobs & Hcover).
    destruct (distribute_bounded_events E size fuel (_tasks (self m)) [] m)
      as (r' & evs' & Hrun' & Hev & Hr & _).
    rewrite Hrun in Hrun'. injection Hrun' as <- Htr.
    apply app_inv_head in Htr. subst evs'.
    exists r, evs. repeat split; assumption.
  - destruct (distribute_whole_cover (_tasks (self m)) [] m)
      as (ids & evs & Hrun & Hjobs & Hcover).
    destruct (distribute_whole_runs E (_tasks (self m)) [] m)
      as (ids' & _ & Hrun').
    rewrite Hrun in Hrun'. injection Hrun' as _ Htr.
    apply app_inv_head in Htr.
    exists (Return ids), evs. split; [exact Hrun|]. split.
    + rewrite Htr. clear. induction (_tasks (self m)); constructor;
        [exact I | assumption].
    + split; [discriminate|]. split; [assumption|]. intros; assumption.
Qed.

(** A [distribute] that returns, on a session whose completion entries
    have functions with a string or no [dependency] option. *)
Lemma distribute_returns (fuel : nat) (m m' : machine)
    (reqs : list request) (ids : list Z) :
  _on_completion (self m) = map completion_entry reqs ->
  Forall (fun r => plain_dependency (fst (fst r))) reqs ->
  distribute E fuel m = (Return ids, m') ->
  exists (batches : list event) (deps : list string),
    trace m'
    = (trace m ++ batches) ++
      zip_with (fun r dep =>
                  DispatchSingle (request_call r)
                    [("dependency"%string, VStr dep)])
               reqs deps /\
    Forall is_batch batches /\
    ids = assigned_ids E (trace m) batches /\
    length ids = length batches /\
    Forall2 (fun r dep => composed_dependency ids (fst (fst r)) dep)
            reqs deps /\
    batch_calls batches = accumulated (self m).
Proof.
  intros Hentries Hplain Hrun.
  destruct (distribute_loops_ids fuel m) as (r & evs & Hloops & Hev & Hids).
  assert (Hcover : forall ids0, r = Return ids0 ->
                                batch_calls evs = accumulated (self m)).
  { destruct (distribute_loops_cover fuel m)
      as (r' & evs' & Hloops' & _ & _ & _ & Hcover).
    rewrite Hloops in Hloops'. injection Hloops' as <- Htr.
    apply app_inv_head in Htr. subst evs'. exact Hcover. }
  unfold distribute in Hrun. unfold bind at 1 in Hrun. unfold get_self in Hrun.
  unfold bind at 1 in Hrun. rewrite Hloops in Hrun.
  destruct r as [ids0|e|]; [|discriminate|discriminate].
  unfold bind at 1 in Hrun. unfold clear_tasks, bind, get_self, set_self in Hrun.
  cbn [self trace _on_completion] in Hrun.
  unfold _add_on_completion_tasks, bind, get_self in Hrun.
  cbn [self trace _on_completion] in Hrun. rewrite Hentries in Hrun.
  destruct (completion_loop_plain ids0 reqs Hplain
              {| self := {| max_batch_size := max_batch_size (self m);
                            _tasks := [];
                            _on_completion := map completion_entry reqs |};
                 trace := trace m ++ evs |})
    as (deps & Hloop & Hdeps).
  rewrite Hloop in Hrun. unfold ret in Hrun. injection Hrun as <- <-.
  exists evs, deps. cbn [trace].
  split; [reflexivity|]. split; [assumption|].
  split; [apply Hids; reflexivity|].
  split; [|split; [assumption | apply (Hcover ids0 eq_refl)]].
  rewrite (Hids ids0 eq_refl). clear.
  generalize (trace m). induction evs as [|e evs IH]; intros tr; [reflexivity|].
  simpl. rewrite IH. reflexivity.
Qed.

(** X4.  When [distribute] returns, the list it returns holds the ids the
    dispatcher gave for the batch jobs, one per job in the order of
    submission, all batch jobs having been submitted before the first
    completion job; and with completion entries whose functions have a
    string or no [dependency] option, each entry is submitted in the order
    of registration with a dependency made of exactly these ids. *)
Theorem completion_jobs_wait_for_returned_ids :
  forall (fuel : nat) (m m' : machine) (reqs : list request) (ids : list Z),
    _on_completion (self m) = map completion_entry reqs ->
    Forall (fun r => plain_dependency (fst (fst r))) reqs ->
    distribute E fuel m = (Return ids, m') ->
    exists (batches : list event) (deps : list string),
      trace m'
      = (trace m ++ batches) ++
        zip_with (fun r dep =>
                    DispatchSingle (request_call r)
                      [("dependency"%string, VStr dep)])
                 reqs deps /\
      Forall is_batch batches /\
      ids = assigned_ids E (trace m) batches /\
      length ids = length batches /\
      Forall2 (fun r dep => composed_dependency ids (fst (fst r)) dep)
              reqs deps.
Proof.
  intros fuel m m' reqs ids Hentries Hplain Hrun.
  destruct (distribute_returns fuel m m' reqs ids Hentries Hplain Hrun)
    as (batches & deps & Htrace & Hev & Hids & Hlen & Hdeps & _).
  exists batches, deps. auto.
Qed.

(** ** A completion entry that is no [SlurmFunction] *)

Lemma for_each_app {A} (l1 l2 : list A) (body : A -> M unit) (m : machine) :
  for_each (l1 ++ l2) body m = (for_each l1 body ;;; for_each l2 body) m.
Proof.
  revert m. induction l1 as [|x l1 IH]; intros m.
  - reflexivity.
  - cbn [app for_each]. unfold bind.
    destruct (body x m) as [[[]|e|] m1]; [|reflexivity|reflexivity].
    rewrite IH. reflexivity.
Qed.

Lemma single_jobs_are_single (reqs : list request) (deps : list string) :
  Forall is_single
    (zip_with (fun r dep =>
                 DispatchSingle (request_call r)
                   [("dependency"%string, VStr dep)])
              reqs deps).
Proof.
  revert deps. induction reqs as [|r reqs IH]; intros [|dep deps];
    try constructor; [exact I | apply IH].
Qed.

Lemma batch_calls_singles (evs : list event) :
  Forall is_single evs -> batch_calls evs = [].
Proof.
  intros Hev. unfold batch_calls. rewrite (singles_no_batches evs Hev).
  reflexivity.
Qed.

Lemma single_jobs_count (reqs : list request) (deps : list string) :
  length reqs = length deps ->
  length (submitted_singles
            (zip_with (fun r dep =>
                         DispatchSingle (request_call r)
                           [("dependency"%string, VStr dep)])
                      reqs deps))
  = length reqs.
Proof.
  revert deps. induction reqs as [|r reqs IH]; intros [|dep deps] Hlen;
    try discriminate; [reflexivity|].
  simpl. f_equal. apply IH. simpl in Hlen. congruence.
Qed.

(** The errors one completion entry can raise. *)
Lemma completion_task_raises (job_ids : list Z)
    (entry : py_object * list value * pydict) (m m' : machine)
    (e : exception) :
  completion_task E job_ids entry m = (Raise e, m') ->
  e = AttributeError \/ e = TypeError.
Proof.
  destruct entry as [[[sf|v] args] kwargs]; cbn [completion_task].
  - set (dep := match dict_get "dependency" (special_slurm_opts sf) with
                | Some v => v
                | None => VStr ""
                end).
    unfold bind at 1.
    destruct (truthy dep).
    + destruct dep; cbn [iadd_str];
        unfold ret, raise, dispatch_to_slurm, bind, emit, get_trace, ret;
        intros H; first [discriminate H | injection H as <- _; right; reflexivity].
    + unfold ret, dispatch_to_slurm, bind, emit, get_trace, ret.
      intros H; discriminate H.
  - unfold raise. intros [= <- _]. left; reflexivity.
Qed.

(** With an entry that is no [SlurmFunction] in it, the loop over the
    completion list never gets to its end. *)
Lemma completion_loop_invalid (job_ids : list Z)
    (entries : list (py_object * list value * pydict)) :
  Exists (fun entry => exists v, fst (fst entry) = ObjOther v) entries ->
  forall m : machine,
    exists e evs,
      for_each entries (completion_task E job_ids) m
      = (Raise e, {| self := self m; trace := trace m ++ evs |}) /\
      (e = AttributeError \/ e = TypeError) /\
      Forall is_single evs.
Proof.
  induction 1 as [[[f args] kwargs] entries (v & Hv) | entry entries _ IH];
    intros m.
  - cbn [fst] in Hv. subst f.
    exists AttributeError, []. rewrite app_nil_r.
    split; [destruct m; reflexivity|].
    split; [left; reflexivity | constructor].
  - destruct (completion_task_events E job_ids entry m)
      as (r1 & evs1 & Hrun1 & Hev1 & Hr1).
    cbn [for_each]. unfold bind. rewrite Hrun1.
    destruct r1 as [[]|e|]; [| |congruence].
    + destruct (IH {| self := self m; trace := trace m ++ evs1 |})
        as (e & evs2 & Hrun2 & He & Hev2).
      exists e, (evs1 ++ evs2). rewrite Hrun2. cbn [self trace].
      rewrite <- app_assoc. split; [reflexivity|].
      split; [assumption | apply Forall_app; split; assumption].
    + exists e, evs1. split; [reflexivity|].
      split; [eapply completion_task_raises; exact Hrun1 | assumption].
Qed.

(** X5.  [on_completion] takes any object, and the check comes late.  With
    an entry that is no [SlurmFunction] anywhere in the completion list, a
    [distribute] whose loops end never returns the job ids: it raises
    [AttributeError] or [TypeError], after every accumulated invocation
    has been submitted in a batch job and the groups have been cleared.
    When the entries registered before the offending one are
    [SlurmFunction]s with a string or no [dependency] option, the error is
    [AttributeError], raised after one single job has been submitted for
    each of those entries. *)
Theorem invalid_completion_entry_fails_after_batches :
  (forall (fuel : nat) (m m' : machine) (r : outcome (list Z)),
      Exists (fun entry => exists v, fst (fst entry) = ObjOther v)
             (_on_completion (self m)) ->
      distribute E fuel m = (r, m') ->
      r <> OutOfFuel ->
      (r = Raise AttributeError \/ r = Raise TypeError) /\
      _tasks (self m') = [] /\
      batch_calls (trace m') = batch_calls (trace m) ++ accumulated (self m)) /\
  (forall (fuel : nat) (m m' : machine) (reqs : list request) (v : value)
          (args : list value) (kwargs : pydict)
          (rest : list (py_object * list value * pydict))
          (r : outcome (list Z)),
      _on_completion (self m)
      = map completion_entry reqs ++ (ObjOther v, args, kwargs) :: rest ->
      Forall (fun r => plain_dependency (fst (fst r))) reqs ->
      distribute E fuel m = (r, m') ->
      r <> OutOfFuel ->
      r = Raise AttributeError /\
      _tasks (self m') = [] /\
      batch_calls (trace m') = batch_calls (trace m) ++ accumulated (self m) /\
      length (submitted_singles (trace m'))
      = (length (submitted_singles (trace m)) + length reqs)%nat).
Proof.
  split.
  - intros fuel m m' r Hinvalid Hrun Hr.
    destruct (distribute_loops_cover fuel m)
      as (r0 & evs & Hloops & Hev & Hnoraise & _ & Hcover).
    unfold distribute in Hrun. unfold bind at 1 in Hrun. unfold get_self in Hrun.
    unfold bind at 1 in Hrun. rewrite Hloops in Hrun.
    destruct r0 as [ids0|e|].
    + unfold bind at 1 in Hrun.
      unfold clear_tasks, bind, get_self, set_self in Hrun.
      cbn [self trace _on_completion] in Hrun.
      unfold _add_on_completion_tasks, bind, get_self in Hrun.
      cbn [self trace _on_completion] in Hrun.
      destruct (completion_loop_invalid ids0 (_on_completion (self m)) Hinvalid
                  {| self := {| max_batch_size := max_batch_size (self m);
                                _tasks := [];
                                _on_completion := _on_completion (self m) |};
                     trace := trace m ++ evs |})
        as (e & evs2 & Hloop & He & Hev2).
      rewrite Hloop in Hrun. injection Hrun as <- <-.
      cbn [self trace _tasks].
      split; [destruct He as [-> | ->]; [left | right]; reflexivity|].
      split; [reflexivity|].
      rewrite !batch_calls_app, (batch_calls_singles _ Hev2), app_nil_r.
      rewrite (Hcover ids0 eq_refl). reflexivity.
    + exfalso. eapply Hnoraise. reflexivity.
    + injection Hrun as <- _. congruence.
  - intros fuel m m' reqs v args kwargs rest r Hentries Hplain Hrun Hr.
    destruct (distribute_loops_cover fuel m)
      as (r0 & evs & Hloops & Hev & Hnoraise & _ & Hcover).
    unfold distribute in Hrun. unfold bind at 1 in Hrun. unfold get_self in Hrun.
    unfold bind at 1 in Hrun. rewrite Hloops in Hrun.
    destruct r0 as [ids0|e|].
    + unfold bind at 1 in Hrun.
      unfold clear_tasks, bind, get_self, set_self in Hrun.
      cbn [self trace _on_completion] in Hrun.
      unfold _add_on_completion_tasks, bind, get_self in Hrun.
      cbn [self trace _on_completion] in Hrun. rewrite Hentries in Hrun.
      rewrite for_each_app in Hrun. unfold bind at 1 in Hrun.
      destruct (completion_loop_plain ids0 reqs Hplain
                  {| self := {| max_batch_size := max_batch_size (self m);
                                _tasks := [];
                                _on_completion :=
                                  map completion_entry reqs ++
                                  (ObjOther v, args, kwargs) :: rest |};
                     trace := trace m ++ evs |})
        as (deps & Hloop & Hdeps).
      rewrite Hloop in Hrun. cbn [for_each completion_task] in Hrun.
      unfold bind, raise in Hrun. injection Hrun as <- <-.
      cbn [self trace _tasks].
      split; [reflexivity|]. split; [reflexivity|].
      pose proof (single_jobs_are_single reqs deps) as Hsingle.
      split.
      * rewrite !batch_calls_app, (batch_calls_singles _ Hsingle), app_nil_r.
        rewrite (Hcover ids0 eq_refl). reflexivity.
      * rewrite !submitted_singles_app, !length_app.
        rewrite (batches_no_singles evs Hev). cbn [length].
        rewrite single_jobs_count; [lia|].
        eapply Forall2_length. exact Hdeps.
    + exfalso. eapply Hnoraise. reflexivity.
    + injection Hrun as <- _. congruence.
Qed.

(** ** A whole block *)

Lemma add_all_accumulated (reqs : list request) :
  forall (m m' : machine),
    add_all E reqs m = (Return tt, m') ->
    accumulated (self m') ≡ₚ accumulated (self m) ++ map request_call reqs /\
    trace m' = trace m /\
    max_batch_size (self m') = max_batch_size (self m) /\
    _on_completion (self m') = _on_completion (self m).
Proof.
  induction reqs as [|r reqs IH]; intros m m' Hrun.
  - injection Hrun as <-. rewrite app_nil_r. auto.
  - destruct r as [[sf args] kwargs].
    unfold add_all in Hrun. cbn [for_each] in Hrun.
    unfold bind at 1 in Hrun. cbn [fst snd] in Hrun.
    rewrite add_slurm_function in Hrun.
    destruct (HashableDict__hash__ E (conf_key E sf)) as [h|]; [|discriminate].
    fold (add_all E reqs) in Hrun.
    apply IH in Hrun as (Hacc & Htr & Hsize & Hcompl).
    cbn [self trace with_tasks max_batch_size _on_completion _tasks] in *.
    repeat split; try assumption.
    rewrite Hacc. unfold accumulated at 1. cbn [_tasks with_tasks].
    rewrite tasks_append_accumulated. cbn [map].
    rewrite <- app_assoc. reflexivity.
Qed.

(** X6.  A block that only adds invocations, left normally on a host
    without [sbatch]: when the [with] statement returns, every invocation
    the block added has been called in this process exactly once, after
    the notice, and no job has been submitted. *)
Theorem with_block_runs_every_invocation_locally :
  forall (fuel : nat) (size : option Z) (reqs : list request)
         (tr : list event) (m' : machine),
    with_AutoBatch E fuel None size (add_all E reqs) tr = (Return tt, m') ->
    local_calls (trace m') ≡ₚ local_calls tr ++ map request_call reqs /\
    submitted_batches (trace m') = submitted_batches tr /\
    submitted_singles (trace m') = submitted_singles tr /\
    _tasks (self m') = [].
Proof.
  intros fuel size reqs tr m' Hwith.
  unfold with_AutoBatch in Hwith.
  destruct (add_all E reqs {| self := __init__ size; trace := tr |})
    as [[[]|e|] m1] eqn:Hbody.
  - apply add_all_accumulated in Hbody as (Hacc & Htr & _ & _).
    unfold bind in Hwith. rewrite exit_without_sbatch in Hwith.
    unfold ret in Hwith. injection Hwith as <-.
    cbn [self trace with_tasks _tasks] in *. rewrite Htr.
    rewrite !local_calls_app, !submitted_batches_app, !submitted_singles_app.
    cbn [local_calls submitted_batches submitted_singles].
    rewrite local_calls_local_events.
    destruct (local_events_no_submissions (accumulated (self m1))) as [-> ->].
    rewrite !app_nil_r. repeat split; try reflexivity.
    rewrite Hacc. reflexivity.
  - cbn in Hwith. discriminate.
  - discriminate.
Qed.

(** The tail of [distribute] on a session without completion entries. *)
Lemma distribute_tail_no_completion (job_ids : list Z) (m : machine) :
  _on_completion (self m) = [] ->
  (clear_tasks ;;; _add_on_completion_tasks E job_ids ;;; ret job_ids) m
  = (Return job_ids, {| self := with_tasks (self m) []; trace := trace m |}).
Proof.
  intros Hnone. unfold bind at 1.
  unfold clear_tasks, bind, get_self, set_self. cbn [self trace].
  unfold _add_on_completion_tasks, bind, get_self.
  cbn [self _on_completion]. unfold with_tasks. rewrite Hnone. reflexivity.
Qed.

(** X7.  A block that only adds invocations, left normally on a host with
    [sbatch]: when the [with] statement returns, every invocation the block
    added has been submitted in exactly one batch job, nothing has been
    called in this process, no single job has been submitted, and every
    batch job holds only invocations whose configuration equals the
    configuration the job was submitted under. *)
Theorem with_block_submits_every_invocation :
  forall (fuel : nat) (path : string) (size : option Z) (reqs : list request)
         (tr : list event) (m' : machine),
    path <> ""%string ->
    with_AutoBatch E fuel (Some path) size (add_all E reqs) tr
    = (Return tt, m') ->
    batch_calls (trace m') ≡ₚ batch_calls tr ++ map request_call reqs /\
    local_calls (trace m') = local_calls tr /\
    submitted_singles (trace m') = submitted_singles tr /\
    exists jobs,
      submitted_batches (trace m') = submitted_batches tr ++ jobs /\
      Forall (fun job =>
                Forall (fun c =>
                          exists r, In r reqs /\ c = request_call r /\
                                    dict_eq (snd job) (conf_key E (fst (fst r)))
                                    = true)
                       (fst job))
             jobs.
Proof.
  intros fuel path size reqs tr m' Hpath Hwith.
  unfold with_AutoBatch in Hwith.
  destruct (add_all E reqs {| self := __init__ size; trace := tr |})
    as [[[]|e|] m1] eqn:Hbody; [|cbn in Hwith; discriminate|discriminate].
  pose proof (add_all_accumulated reqs _ _ Hbody) as (Hacc & Htr & _ & Hcompl).
  destruct (add_all_grouped E reqs []
              {| self := __init__ size; trace := tr |} m1
              (grouped_init E) Hbody)
    as ((Hok & _ & _) & _).
  cbn [self trace __init__ _on_completion accumulated _tasks map concat app]
    in Hacc, Htr, Hcompl, Hok.
  unfold __exit__ in Hwith. cbn [no_sbatch] in Hwith.
  destruct (String.eqb_spec path "") as [->|_]; [congruence|].
  unfold distribute in Hwith.
  destruct (distribute_loops_cover fuel m1)
    as (r0 & evs & Hloops & Hev & Hnoraise & Hjobs & Hcover).
  unfold bind at 1 in Hwith. unfold bind at 1 in Hwith.
  unfold bind at 1 in Hwith. unfold get_self at 1 in Hwith.
  unfold bind at 1 in Hwith. rewrite Hloops in Hwith.
  destruct r0 as [ids0|e|]; [|discriminate|discriminate].
  rewrite (distribute_tail_no_completion ids0
             {| self := self m1; trace := trace m1 ++ evs |} Hcompl) in Hwith.
  unfold ret in Hwith. injection Hwith as <-. cbn [trace]. rewrite Htr.
  split; [|split; [|split]].
  - rewrite batch_calls_app, (Hcover ids0 eq_refl), Hacc. reflexivity.
  - rewrite local_calls_app, (batches_no_local_calls evs Hev), app_nil_r.
    reflexivity.
  - rewrite submitted_singles_app, (batches_no_singles evs Hev), app_nil_r.
    reflexivity.
  - exists (submitted_batches evs). split; [apply submitted_batches_app|].
    eapply Forall_impl; [exact Hjobs|].
    intros job (b & Hb & Hkey & Hcalls).
    rewrite Forall_forall in Hok.
    destruct (Hok b ltac:(apply list_elem_of_In; exact Hb)) as (_ & _ & Hfilter).
    eapply Forall_impl; [exact Hcalls|]. intros c Hc.
    rewrite Hfilter in Hc. apply in_map_iff in Hc as (r & <- & Hr).
    apply filter_In in Hr as [Hin Heq].
    exists r. split; [assumption|]. split; [reflexivity|].
    rewrite Hkey. exact Heq.
Qed.

(** ** How many jobs *)

Lemma chunkings_count (size : Z) (tasks : list bucket)
    (chunkss : list (list (list _FunctionCall))) :
  1 <= size ->
  Forall2 (fun b chunks => chunking size (bucket_calls b) chunks) tasks chunkss ->
  Z.of_nat (length (concat chunkss))
  = foldr Z.add 0
      (map (fun b => jobs_for size (length (bucket_calls b))) tasks).
Proof.
  intros Hsize. induction 1 as [|b chunks tasks chunkss Hch _ IH];
    [reflexivity|].
  cbn [concat map foldr]. rewrite length_app, Nat2Z.inj_add, IH.
  rewrite (chunking_count size chunks Hsize _ Hch). reflexivity.
Qed.

(** X8.  With a bound [size >= 1], a [distribute] that returns has
    submitted, for a group of [n] invocations, [n] divided by [size] and
    rounded up batch jobs, and it returns as many job ids as the groups
    need together. *)
Theorem distribute_job_count :
  forall (size : Z) (s : AutoBatch) (tr : list event) (fuel : nat)
         (ids : list Z) (m' : machine),
    max_batch_size s = Some size -> 1 <= size ->
    Forall (fun b => (length (bucket_calls b) <= fuel)%nat) (_tasks s) ->
    distribute E fuel {| self := s; trace := tr |} = (Return ids, m') ->
    Z.of_nat (length ids)
    = foldr Z.add 0
        (map (fun b => jobs_for size (length (bucket_calls b))) (_tasks s)) /\
    length (submitted_batches (trace m'))
    = (length (submitted_batches tr) + length ids)%nat.
Proof.
  intros size s tr fuel ids m' Hsize Hpos Hfuel Hrun.
  destruct (distribute_bounded_spec E size s tr fuel Hsize Hpos Hfuel)
    as (chunkss & r & evs & Hrun' & _ & Hev & Hch & Hids).
  rewrite Hrun in Hrun'. injection Hrun' as <- ->.
  specialize (Hids ids eq_refl).
  split.
  - rewrite Hids. apply chunkings_count; assumption.
  - cbn [trace]. rewrite !submitted_batches_app, submitted_batches_groups.
    rewrite (singles_no_batches evs Hev), app_nil_r, length_app. f_equal.
    rewrite Hids. clear -Hch.
    induction Hch as [|b chunks tasks chunkss _ _ IH]; [reflexivity|].
    cbn [zip_with concat]. rewrite !length_app, length_map, IH. reflexivity.
Qed.

(** ** A bound no group reaches *)

Lemma distribute_chunks_single (size : Z) (conf : pydict) (fuel : nat)
    (calls : list _FunctionCall) (job_ids : list Z) (m : machine) :
  calls <> [] -> Z.of_nat (length calls) <= size ->
  distribute_chunks E (S fuel) size conf calls job_ids m
  = (Return (job_ids ++ [job_id E (trace m ++ [DispatchBatch calls conf])]),
     {| self := self m; trace := trace m ++ [DispatchBatch calls conf] |}).
Proof.
  intros Hne Hlen. destruct calls as [|c calls]; [congruence|].
  assert (Hsize : 1 <= size) by (simpl length in Hlen; lia).
  rewrite distribute_chunks_step.
  rewrite (slice_to_all (c :: calls) size Hsize Hlen).
  rewrite (slice_from_all (c :: calls) size Hsize Hlen).
  apply distribute_chunks_nil.
Qed.

Lemma distribute_bounded_as_whole (size : Z) (fuel : nat)
    (tasks : list bucket) :
  Forall (fun b => bucket_calls b <> [] /\
                   Z.of_nat (length (bucket_calls b)) <= size) tasks ->
  forall (job_ids : list Z) (m : machine),
    distribute_bounded E (S fuel) size tasks job_ids m
    = distribute_whole E tasks job_ids m.
Proof.
  induction 1 as [|b tasks [Hne Hlen] _ IH]; intros job_ids m; [reflexivity|].
  cbn [distribute_bounded distribute_whole]. unfold bind at 1.
  rewrite (distribute_chunks_single size (bucket_key b) fuel _ job_ids m Hne Hlen).
  rewrite IH. unfold bind at 1. unfold dispatch_batch_to_slurm.
  unfold bind, emit, get_trace, ret. reflexivity.
Qed.

(** A completion entry is handled the same way whatever the session is. *)
Lemma completion_task_any_self (job_ids : list Z)
    (entry : py_object * list value * pydict) (s1 s2 : AutoBatch)
    (tr : list event) :
  exists r evs,
    completion_task E job_ids entry {| self := s1; trace := tr |}
    = (r, {| self := s1; trace := tr ++ evs |}) /\
    completion_task E job_ids entry {| self := s2; trace := tr |}
    = (r, {| self := s2; trace := tr ++ evs |}).
Proof.
  destruct entry as [[[sf|v] args] kwargs]; cbn [completion_task].
  - set (dep := match dict_get "dependency" (special_slurm_opts sf) with
                | Some v => v
                | None => VStr ""
                end).
    unfold bind at 1. unfold bind at 3.
    destruct (truthy dep).
    + destruct dep; cbn [iadd_str]; unfold ret, raise;
        first [ exists (Raise TypeError), []; rewrite app_nil_r;
                split; reflexivity
              | eexists (Return tt), [_];
                unfold dispatch_to_slurm, bind, emit, get_trace, ret;
                split; reflexivity ].
    + eexists (Return tt), [_].
      unfold dispatch_to_slurm, bind, emit, get_trace, ret.
      split; reflexivity.
  - exists (Raise AttributeError), []. rewrite app_nil_r. split; reflexivity.
Qed.

Lemma completion_loop_any_self (job_ids : list Z)
    (entries : list (py_object * list value * pydict)) (s1 s2 : AutoBatch) :
  forall tr : list event,
    exists r tr',
      for_each entries (completion_task E job_ids) {| self := s1; trace := tr |}
      = (r, {| self := s1; trace := tr' |}) /\
      for_each entries (completion_task E job_ids) {| self := s2; trace := tr |}
      = (r, {| self := s2; trace := tr' |}).
Proof.
  induction entries as [|entry entries IH]; intros tr.
  - exists (Return tt), tr. split; reflexivity.
  - destruct (completion_task_any_self job_ids entry s1 s2 tr)
      as (r1 & evs & Hrun1 & Hrun2).
    cbn [for_each]. unfold bind. rewrite Hrun1, Hrun2.
    destruct r1 as [[]|e|].
    + apply IH.
    + exists (Raise e), (tr ++ evs). split; reflexivity.
    + exists OutOfFuel, (tr ++ evs). split; reflexivity.
Qed.

(** [distribute]: the loops over the groups, then the rest. *)
Lemma distribute_unfold (fuel : nat) (m : machine) :
  distribute E fuel m
  = match match max_batch_size (self m) with
          | None => distribute_whole E (_tasks (self m)) []
          | Some size => distribute_bounded E fuel size (_tasks (self m)) []
          end m with
    | (Return ids, m1) =>
        (clear_tasks ;;; _add_on_completion_tasks E ids ;;; ret ids) m1
    | (Raise e, m1) => (Raise e, m1)
    | (OutOfFuel, m1) => (OutOfFuel, m1)
    end.
Proof. reflexivity. Qed.

Lemma distribute_tail_run (job_ids : list Z) (s : AutoBatch)
    (tr tr' : list event) (r : outcome unit) :
  for_each (_on_completion s) (completion_task E job_ids)
    {| self := with_tasks s []; trace := tr |}
  = (r, {| self := with_tasks s []; trace := tr' |}) ->
  (clear_tasks ;;; _add_on_completion_tasks E job_ids ;;; ret job_ids)
    {| self := s; trace := tr |}
  = (match r with
     | Return _ => Return job_ids
     | Raise e => Raise e
     | OutOfFuel => OutOfFuel
     end, {| self := with_tasks s []; trace := tr' |}).
Proof.
  intros Hloop. unfold bind at 1.
  unfold clear_tasks, bind, get_self, set_self, _add_on_completion_tasks.
  unfold bind, get_self. cbn [self trace _on_completion].
  unfold with_tasks in Hloop. rewrite Hloop. destruct r; reflexivity.
Qed.

(** What follows the loops depends on the completion list and the trace
    only. *)
Lemma distribute_tail_any_self (job_ids : list Z) (s1 s2 : AutoBatch)
    (tr : list event) :
  _on_completion s1 = _on_completion s2 ->
  exists r tr',
    (clear_tasks ;;; _add_on_completion_tasks E job_ids ;;; ret job_ids)
      {| self := s1; trace := tr |}
    = (r, {| self := with_tasks s1 []; trace := tr' |}) /\
    (clear_tasks ;;; _add_on_completion_tasks E job_ids ;;; ret job_ids)
      {| self := s2; trace := tr |}
    = (r, {| self := with_tasks s2 []; trace := tr' |}).
Proof.
  intros Hsame.
  destruct (completion_loop_any_self job_ids (_on_completion s1)
              (with_tasks s1 []) (with_tasks s2 []) tr)
    as (r & tr' & Hloop1 & Hloop2).
  rewrite Hsame in Hloop2 at 1.
  apply distribute_tail_run in Hloop1, Hloop2.
  eexists _, tr'. split; [exact Hloop1 | exact Hloop2].
Qed.

(** X9.  A bound that no group exceeds changes nothing: on a session whose
    groups are not empty and hold at most [size] invocations each,
    [distribute] with [max_batch_size = size] ends the same way, with the
    same calls to the dispatcher in the same order, as [distribute] without
    a bound. *)
Theorem bound_above_every_group_is_no_bound :
  forall (size : Z) (s : AutoBatch) (tr : list event) (fuel : nat),
    Forall (fun b => bucket_calls b <> [] /\
                     Z.of_nat (length (bucket_calls b)) <= size) (_tasks s) ->
    (1 <= fuel)%nat ->
    fst (distribute E fuel {| self := with_bound s (Some size); trace := tr |})
    = fst (distribute E fuel {| self := with_bound s None; trace := tr |}) /\
    trace (snd (distribute E fuel
                  {| self := with_bound s (Some size); trace := tr |}))
    = trace (snd (distribute E fuel
                    {| self := with_bound s None; trace := tr |})).
Proof.
  intros size s tr fuel Hgroups Hfuel.
  destruct fuel as [|fuel]; [lia|].
  destruct (distribute_whole_ids (_tasks s) []
              {| self := with_bound s (Some size); trace := tr |})
    as (evs1 & Hw1 & _).
  destruct (distribute_whole_ids (_tasks s) []
              {| self := with_bound s None; trace := tr |})
    as (evs2 & Hw2 & _).
  assert (Hevs : evs1 = evs2).
  { destruct (distribute_whole_runs E (_tasks s) []
                {| self := with_bound s (Some size); trace := tr |})
      as (ids1 & _ & Hrun1).
    destruct (distribute_whole_runs E (_tasks s) []
                {| self := with_bound s None; trace := tr |})
      as (ids2 & _ & Hrun2).
    rewrite Hrun1 in Hw1. rewrite Hrun2 in Hw2.
    injection Hw1 as _ Ht1. injection Hw2 as _ Ht2.
    cbn [trace] in *. apply app_inv_head in Ht1, Ht2. congruence. }
  subst evs2. cbn [self trace] in Hw1, Hw2.
  destruct (distribute_tail_any_self ([] ++ assigned_ids E tr evs1)
              (with_bound s (Some size)) (with_bound s None) (tr ++ evs1)
              eq_refl)
    as (r & tr' & Ht1 & Ht2).
  rewrite !distribute_unfold.
  cbn [self with_bound max_batch_size _tasks].
  rewrite (distribute_bounded_as_whole size fuel (_tasks s) Hgroups).
  unfold with_bound in *. rewrite Hw1, Hw2, Ht1, Ht2.
  split; reflexivity.
Qed.

(** ** Blocks and sessions with nothing to batch *)

(** X10.  A block that adds nothing submits nothing and calls nothing:
    leaving it returns with the new session as it was made and, on a host
    without [sbatch], with the notice of the local run as the only thing
    done. *)
Theorem empty_block_does_nothing :
  forall (fuel : nat) (which_sbatch : option string) (size : option Z)
         (tr : list event),
    with_AutoBatch E fuel which_sbatch size (ret tt) tr
    = (Return tt,
       {| self := __init__ size;
          trace := tr ++
            (if no_sbatch which_sbatch
             then [Print "No Slurm environment available. Running batch locally."]
             else []) |}).
Proof.
  intros fuel which_sbatch size tr.
  unfold with_AutoBatch, ret, __exit__. cbn [self].
  destruct (no_sbatch which_sbatch).
  - reflexivity.
  - rewrite app_nil_r. destruct size; reflexivity.
Qed.

(** [distribute] on a session without groups: no batch job, and the
    completion entries submitted after no job at all. *)
Lemma distribute_without_groups (fuel : nat) (m : machine)
    (reqs : list request) :
  _tasks (self m) = [] ->
  _on_completion (self m) = map completion_entry reqs ->
  Forall (fun r => plain_dependency (fst (fst r))) reqs ->
  exists deps : list string,
    distribute E fuel m
    = (Return [],
       {| self := self m;
          trace := trace m ++
            zip_with (fun r dep =>
                        DispatchSingle (request_call r)
                          [("dependency"%string, VStr dep)])
                     reqs deps |}) /\
    Forall2 (fun r dep => composed_dependency [] (fst (fst r)) dep) reqs deps.
Proof.
  intros Htasks Hentries Hplain.
  destruct m as [s tr]. cbn [self trace] in *.
  destruct (completion_loop_plain [] reqs Hplain {| self := s; trace := tr |})
    as (deps & Hloop & Hdeps).
  cbn [self trace] in Hloop.
  exists deps. split; [|exact Hdeps].
  rewrite distribute_unfold. cbn [self]. rewrite Htasks.
  replace (match max_batch_size s with
           | Some size => distribute_bounded E fuel size [] []
           | None => distribute_whole E [] []
           end {| self := s; trace := tr |})
    with (@Return (list Z) [], {| self := s; trace := tr |})
    by (destruct (max_batch_size s); reflexivity).
  pose proof (distribute_tail_run [] s tr
                (tr ++ zip_with (fun r dep =>
                                   DispatchSingle (request_call r)
                                     [("dependency"%string, VStr dep)])
                                reqs deps)
                (Return tt)) as Htail.
  rewrite (with_tasks_nil s Htasks), Hentries in Htail.
  rewrite (Htail Hloop). reflexivity.
Qed.

(** X11.  [distribute] on a session without groups but with completion
    entries (functions with a string or no [dependency] option) returns an
    empty list of job ids and still submits every entry, with an [afterany]
    clause that names no job: ["afterany:"] alone for a function without a
    clause or with an empty one, and otherwise the clause of the function
    followed by [",afterany:"]. *)
Theorem distribute_without_groups_submits_completion_entries :
  forall (fuel : nat) (m : machine) (reqs : list request),
    _tasks (self m) = [] ->
    _on_completion (self m) = map completion_entry reqs ->
    Forall (fun r => plain_dependency (fst (fst r))) reqs ->
    exists deps : list string,
      distribute E fuel m
      = (Return [],
         {| self := self m;
            trace := trace m ++
              zip_with (fun r dep =>
                          DispatchSingle (request_call r)
                            [("dependency"%string, VStr dep)])
                       reqs deps |}) /\
      Forall2 (fun r dep =>
                 (dict_get "dependency" (special_slurm_opts (fst (fst r))) = None \/
                  dict_get "dependency" (special_slurm_opts (fst (fst r)))
                  = Some (VStr "") ->
                  dep = "afterany:"%string) /\
                 (forall d,
                    dict_get "dependency" (special_slurm_opts (fst (fst r)))
                    = Some (VStr d) ->
                    d <> ""%string -> dep = (d ++ ",afterany:")%string))
              reqs deps.
Proof.
  intros fuel m reqs Htasks Hentries Hplain.
  destruct (distribute_without_groups fuel m reqs Htasks Hentries Hplain)
    as (deps & Hrun & Hdeps).
  exists deps. split; [exact Hrun|].
  eapply Forall2_impl; [exact Hdeps|].
  intros r dep [Hclause Halone]. split.
  - intros Hnone. rewrite (Halone Hnone). reflexivity.
  - intros d Hd Hne. rewrite (Hclause d Hd Hne). reflexivity.
Qed.

(** ** Adding, registering, leaving the block *)

(** [on_completion] stores what it is given, whatever it is. *)
Lemma register_all_spec (creqs : list request) :
  forall m : machine,
    register_all creqs m
    = (Return tt,
       {| self := {| max_batch_size := max_batch_size (self m);
                     _tasks := _tasks (self m);
                     _on_completion :=
                       _on_completion (self m) ++ map completion_entry creqs |};
          trace := trace m |}).
Proof.
  induction creqs as [|r creqs IH]; intros m.
  - cbn [map]. rewrite app_nil_r. destruct m as [[size tasks completion] tr].
    reflexivity.
  - change (register_all (r :: creqs) m)
      with ((on_completion (ObjSlurmFunction (fst (fst r))) (snd (fst r)) (snd r) ;;;
             register_all creqs) m).
    unfold bind at 1. unfold on_completion, bind, get_self, set_self.
    rewrite IH.
    cbn [self trace max_batch_size _tasks _on_completion map].
    rewrite <- app_assoc. reflexivity.
Qed.

(** X12.  A block that adds invocations and then registers completion
    entries, left normally on a host with [sbatch]: when the [with]
    statement returns, all batch jobs have been submitted first and hold
    together every added invocation exactly once; then every completion
    entry has been submitted as a job of its own, in the order of
    registration, depending on exactly the ids the dispatcher gave for the
    batch jobs of this block. *)
Theorem with_block_chains_completion_jobs :
  forall (fuel : nat) (path : string) (size : option Z)
         (reqs creqs : list request) (tr : list event) (m' : machine),
    path <> ""%string ->
    Forall (fun r => plain_dependency (fst (fst r))) creqs ->
    with_AutoBatch E fuel (Some path) size
      (add_all E reqs ;;; register_all creqs) tr
    = (Return tt, m') ->
    exists (batches : list event) (deps : list string),
      trace m'
      = (tr ++ batches) ++
        zip_with (fun r dep =>
                    DispatchSingle (request_call r)
                      [("dependency"%string, VStr dep)])
                 creqs deps /\
      Forall is_batch batches /\
      batch_calls batches ≡ₚ map request_call reqs /\
      Forall2 (fun r dep =>
                 composed_dependency (assigned_ids E tr batches)
                   (fst (fst r)) dep)
              creqs deps.
Proof.
  intros fuel path size reqs creqs tr m' Hpath Hplain Hwith.
  unfold with_AutoBatch in Hwith.
  destruct ((add_all E reqs ;;; register_all creqs)
              {| self := __init__ size; trace := tr |})
    as [[[]|e|] m2] eqn:Hbody; [|cbn in Hwith; discriminate|discriminate].
  unfold bind in Hbody.
  destruct (add_all E reqs {| self := __init__ size; trace := tr |})
    as [[[]|e|] m1] eqn:Hadds; [|discriminate|discriminate].
  pose proof (add_all_accumulated reqs _ _ Hadds) as (Hacc & Htr & _ & Hcompl).
  cbn [self trace __init__ _on_completion accumulated _tasks map concat app]
    in Hacc, Htr, Hcompl.
  rewrite register_all_spec in Hbody. injection Hbody as <-.
  rewrite Hcompl in Hwith. cbn [app] in Hwith.
  unfold __exit__ in Hwith. cbn [no_sbatch] in Hwith.
  destruct (String.eqb_spec path "") as [->|_]; [congruence|].
  unfold bind at 1 in Hwith. unfold bind at 1 in Hwith.
  destruct (distribute E fuel _) as [[ids|e|] m3] eqn:Hrun;
    [|discriminate|discriminate].
  unfold ret in Hwith. injection Hwith as <-.
  destruct (distribute_returns fuel
              {| self := {| max_batch_size := max_batch_size (self m1);
                            _tasks := _tasks (self m1);
                            _on_completion := map completion_entry creqs |};
                 trace := trace m1 |}
              m3 creqs ids eq_refl Hplain Hrun)
    as (batches & deps & Htrace & Hev & Hids & _ & Hdeps & Hcover).
  cbn [self trace accumulated _tasks] in Htrace, Hids, Hcover.
  exists batches, deps. rewrite Htr in Htrace, Hids.
  split; [exact Htrace|]. split; [assumption|]. split.
  - rewrite Hcover. exact Hacc.
  - rewrite <- Hids. exact Hdeps.
Qed.

(** X13.  Only the truth value of a [dependency] option decides whether it
    counts as a clause: a falsy one ([None], [0], the empty string, tuple
    or list) is dropped and the entry is submitted after the jobs alone;
    a true one that is neither a string nor a list makes the entry fail
    with [TypeError], and nothing is submitted for it. *)
Theorem dependency_option_by_truth_value :
  forall (job_ids : list Z) (sf : SlurmFunction) (args : list value)
         (kwargs : pydict) (m : machine) (v : value),
    dict_get "dependency" (special_slurm_opts sf) = Some v ->
    (truthy v = false ->
     completion_task E job_ids (ObjSlurmFunction sf, args, kwargs) m
     = (Return tt,
        {| self := self m;
           trace := trace m ++
             [DispatchSingle (request_call (sf, args, kwargs))
                [("dependency"%string,
                  VStr ("afterany:" ++ str_join ":" (map str_of_int job_ids)))]] |})) /\
    (truthy v = true -> (forall d, v <> VStr d) -> (forall l, v <> VList l) ->
     completion_task E job_ids (ObjSlurmFunction sf, args, kwargs) m
     = (Raise TypeError, m)).
Proof.
  intros job_ids sf args kwargs m v Hdep.
  unfold completion_task. rewrite Hdep. split.
  - intros ->. reflexivity.
  - intros -> Hstr Hlist.
    destruct v as [|n|d|l|l]; try reflexivity.
    + exfalso. apply (Hstr d). reflexivity.
    + exfalso. apply (Hlist l). reflexivity.
Qed.

End Extras.

(** * The completion list after a terminal action *)

(** C2, at the code.  A terminal action empties the groups and nothing
    else: no statement of [distribute] or [run_locally] removes an entry
    from the completion list.  After a [distribute] that returns, on a
    session whose completion entries are functions with a string or no
    [dependency] option, the groups are empty, every completion entry is
    still registered, and a second [distribute] returns no job id and
    submits every entry once more, now with an [afterany] clause that
    names no job.  [run_locally] returns with the groups empty and the
    completion list as it was.  What a second terminal action does not do
    is submit a batch job or call a function in this process, and a
    second [distribute] that returns returns the empty list.  On the
    session with two groups and the completion entry [collect], the first
    [distribute] returns the jobs 101 and 102 and leaves [collect]
    registered; the second returns no job and submits [collect] again,
    under ["afterok:5,afterany:"]. *)
Theorem distribute_leaves_completion_entries :
  (forall (E : Collaborators) (fuel fuel' : nat) (m m1 : machine)
          (reqs : list request) (ids : list Z),
      _on_completion (self m) = map completion_entry reqs ->
      Forall (fun r => plain_dependency (fst (fst r))) reqs ->
      distribute E fuel m = (Return ids, m1) ->
      _tasks (self m1) = [] /\
      _on_completion (self m1) = map completion_entry reqs /\
      exists deps : list string,
        distribute E fuel' m1
        = (Return [],
           {| self := self m1;
              trace := trace m1 ++
                zip_with (fun r dep =>
                            DispatchSingle (request_call r)
                              [("dependency"%string, VStr dep)])
                         reqs deps |}) /\
        Forall2 (fun r dep => composed_dependency [] (fst (fst r)) dep)
                reqs deps) /\
  (forall m : machine,
      exists m1,
        run_locally m = (Return tt, m1) /\
        _tasks (self m1) = [] /\
        _on_completion (self m1) = _on_completion (self m)) /\
  (forall (E : Collaborators) (m1 : machine),
      _tasks (self m1) = [] ->
      run_locally m1 = (Return tt, m1) /\
      forall (fuel : nat) (r : outcome (list Z)) (m2 : machine),
        distribute E fuel m1 = (r, m2) ->
        submitted_batches (trace m2) = submitted_batches (trace m1) /\
        local_calls (trace m2) = local_calls (trace m1) /\
        r <> OutOfFuel /\
        (forall ids, r = Return ids -> ids = [])) /\
  (exists m1 m2,
      distribute Sample.env 3 Sample.mixed_machine = (Return [101; 102], m1) /\
      _tasks (self m1) = [] /\
      _on_completion (self m1)
      = [(ObjSlurmFunction Sample.after5, [VStr "done"], [])] /\
      distribute Sample.env 3 m1 = (Return [], m2) /\
      trace m2
      = trace m1 ++
        [DispatchSingle
           {| call_func_id := "collect"; call_args := [VStr "done"];
              call_kwargs := [] |}
           [("dependency"%string, VStr "afterok:5,afterany:")]]).
Proof.
  split; [|split; [|split]].
  - intros E fuel fuel' m m1 reqs ids Hentries Hplain Hrun.
    destruct (distribute_events E fuel m)
      as (r & evs1 & evs2 & Hrun' & _).
    rewrite Hrun in Hrun'. injection Hrun' as <- ->.
    cbn [self trace with_tasks _tasks _on_completion].
    split; [reflexivity|]. split; [exact Hentries|].
    apply (distribute_without_groups E fuel'
             {| self := with_tasks (self m) [];
                trace := (trace m ++ evs1) ++ evs2 |} reqs);
      [reflexivity | exact Hentries | exact Hplain].
  - intros m. eexists. split; [apply run_locally_spec|].
    split; reflexivity.
  - intros E m1 Hnil. split.
    + rewrite run_locally_spec. unfold accumulated. rewrite Hnil.
      cbn [map concat]. rewrite app_nil_r, with_tasks_nil by assumption.
      destruct m1; reflexivity.
    + intros fuel r m2 Hrun.
      destruct (distribute_events E fuel m1)
        as (r' & evs1 & evs2 & Hrun' & Hev1 & Hev2 & Hempty).
      destruct (Hempty Hnil) as (-> & Hr & Hids).
      rewrite Hrun in Hrun'. injection Hrun' as <- ->.
      cbn [trace self].
      rewrite !submitted_batches_app, !local_calls_app.
      rewrite (singles_no_batches evs2 Hev2), (singles_no_local_calls evs2 Hev2).
      cbn [submitted_batches local_calls]. rewrite !app_nil_r.
      repeat split; assumption.
  - do 2 eexists. split; [vm_compute; reflexivity|].
    split; [reflexivity|]. split; [reflexivity|].
    split; vm_compute; reflexivity.
Qed.

(** C2, at the code, on the session with two groups and the completion
    entry [collect]. *)
Lemma distribute_leaves_completion_entries_witness :
  _on_completion (self Sample.mixed_machine)
  = map completion_entry Sample.done_requests /\
  Forall (fun r => plain_dependency (fst (fst r))) Sample.done_requests /\
  distribute Sample.env 3 Sample.mixed_machine
  = (Return [101; 102], snd (distribute Sample.env 3 Sample.mixed_machine)) /\
  _tasks (self (snd (distribute Sample.env 3 Sample.mixed_machine))) = [] /\
  _on_completion (self (snd (distribute Sample.env 3 Sample.mixed_machine)))
  = map completion_entry Sample.done_requests /\
  exists deps : list string,
    distribute Sample.env 3 (snd (distribute Sample.env 3 Sample.mixed_machine))
    = (Return [],
       {| self := self (snd (distribute Sample.env 3 Sample.mixed_machine));
          trace := trace (snd (distribute Sample.env 3 Sample.mixed_machine)) ++
            zip_with (fun r dep =>
                        DispatchSingle (request_call r)
                          [("dependency"%string, VStr dep)])
                     Sample.done_requests deps |}) /\
    Forall2 (fun r dep => composed_dependency [] (fst (fst r)) dep)
            Sample.done_requests deps.
Proof.
  assert (H1 : _on_completion (self Sample.mixed_machine)
               = map completion_entry Sample.done_requests)
    by reflexivity.
  assert (H2 : Forall (fun r => plain_dependency (fst (fst r)))
                      Sample.done_requests).
  { constructor; [right; eexists; reflexivity | constructor]. }
  assert (H3 : distribute Sample.env 3 Sample.mixed_machine
               = (Return [101; 102],
                  snd (distribute Sample.env 3 Sample.mixed_machine)))
    by (vm_compute; reflexivity).
  split; [exact H1|]. split; [exact H2|]. split; [exact H3|].
  exact (proj1 distribute_leaves_completion_entries Sample.env 3%nat 3%nat
           Sample.mixed_machine _ Sample.done_requests [101; 102] H1 H2 H3).
Defined.


(** * The further properties on concrete sessions *)

(** X1 on the first call of a session. *)
Lemma add_keeps_every_invocation_witness :
  add Sample.env (ObjSlurmFunction Sample.f_small) [VInt 1] []
    (Sample.start None)
  = (Return tt,
     snd (add Sample.env (ObjSlurmFunction Sample.f_small) [VInt 1] []
            (Sample.start None))) /\
  accumulated
    (self (snd (add Sample.env (ObjSlurmFunction Sample.f_small) [VInt 1] []
                  (Sample.start None))))
  ≡ₚ accumulated (self (Sample.start None)) ++
     [request_call (Sample.f_small, [VInt 1], [])].
Proof.
  assert (H1 : add Sample.env (ObjSlurmFunction Sample.f_small) [VInt 1] []
                 (Sample.start None)
               = (Return tt,
                  snd (add Sample.env (ObjSlurmFunction Sample.f_small)
                         [VInt 1] [] (Sample.start None))))
    by (vm_compute; reflexivity).
  split; [exact H1|].
  exact (proj1 (proj2 (proj2 (proj2
           (add_keeps_every_invocation Sample.env Sample.f_small [VInt 1] []
              (Sample.start None) _ H1))))).
Defined.

(** X3 on five calls under a bound of minus one. *)
Lemma distribute_negative_bound_never_ends_witness :
  max_batch_size (Sample.five_session (Some (-1))) = Some (-1) /\
  -1 < 0 /\
  Exists (fun b => bucket_calls b <> [])
         (_tasks (Sample.five_session (Some (-1)))) /\
  fst (distribute Sample.env 9
         {| self := Sample.five_session (Some (-1)); trace := [] |})
  = OutOfFuel.
Proof.
  assert (H1 : max_batch_size (Sample.five_session (Some (-1))) = Some (-1))
    by reflexivity.
  assert (H2 : -1 < 0) by lia.
  assert (H3 : Exists (fun b => bucket_calls b <> [])
                      (_tasks (Sample.five_session (Some (-1)))))
    by (vm_compute; constructor; discriminate).
  split; [exact H1|]. split; [exact H2|]. split; [exact H3|].
  exact (proj1 (distribute_negative_bound_never_ends Sample.env (-1)
                  (Sample.five_session (Some (-1))) [] 9%nat H1 H2 H3)).
Defined.

(** X4 on two groups and one completion entry. *)
Lemma completion_jobs_wait_for_returned_ids_witness :
  _on_completion (self Sample.mixed_machine)
  = map completion_entry Sample.done_requests /\
  Forall (fun r => plain_dependency (fst (fst r)))
         Sample.done_requests /\
  distribute Sample.env 3 Sample.mixed_machine
  = (Return [101; 102], snd (distribute Sample.env 3 Sample.mixed_machine)) /\
  exists (batches : list event) (deps : list string),
    trace (snd (distribute Sample.env 3 Sample.mixed_machine))
    = (trace Sample.mixed_machine ++ batches) ++
      zip_with (fun r dep =>
                  DispatchSingle (request_call r)
                    [("dependency"%string, VStr dep)])
               Sample.done_requests deps /\
    Forall is_batch batches /\
    [101; 102] = assigned_ids Sample.env (trace Sample.mixed_machine) batches /\
    length [101; 102] = length batches /\
    Forall2 (fun r dep => composed_dependency [101; 102] (fst (fst r)) dep)
            Sample.done_requests deps.
Proof.
  assert (H1 : _on_completion (self Sample.mixed_machine)
               = map completion_entry Sample.done_requests)
    by reflexivity.
  assert (H2 : Forall (fun r => plain_dependency (fst (fst r)))
                      Sample.done_requests).
  { constructor; [right; eexists; reflexivity | constructor]. }
  assert (H3 : distribute Sample.env 3 Sample.mixed_machine
               = (Return [101; 102],
                  snd (distribute Sample.env 3 Sample.mixed_machine)))
    by (vm_compute; reflexivity).
  split; [exact H1|]. split; [exact H2|]. split; [exact H3|].
  exact (completion_jobs_wait_for_returned_ids Sample.env 3%nat
           Sample.mixed_machine _ _ [101; 102] H1 H2 H3).
Defined.

(** X5 on the same session with an integer registered for completion. *)
Lemma invalid_completion_entry_fails_after_batches_witness :
  _on_completion (self Sample.invalid_completion_machine)
  = map completion_entry Sample.done_requests ++
    (ObjOther (VInt 7), [], []) :: [] /\
  Forall (fun r => plain_dependency (fst (fst r)))
         Sample.done_requests /\
  fst (distribute Sample.env 3 Sample.invalid_completion_machine) <> OutOfFuel /\
  fst (distribute Sample.env 3 Sample.invalid_completion_machine)
  = Raise AttributeError /\
  _tasks (self (snd (distribute Sample.env 3 Sample.invalid_completion_machine)))
  = [] /\
  batch_calls (trace (snd (distribute Sample.env 3
                             Sample.invalid_completion_machine)))
  = batch_calls (trace Sample.invalid_completion_machine) ++
    accumulated (self Sample.invalid_completion_machine) /\
  length (submitted_singles
            (trace (snd (distribute Sample.env 3
                           Sample.invalid_completion_machine))))
  = (length (submitted_singles (trace Sample.invalid_completion_machine))
     + length Sample.done_requests)%nat.
Proof.
  assert (H1 : _on_completion (self Sample.invalid_completion_machine)
               = map completion_entry Sample.done_requests ++
                 (ObjOther (VInt 7), [], []) :: [])
    by reflexivity.
  assert (H2 : Forall (fun r => plain_dependency (fst (fst r)))
                      Sample.done_requests).
  { constructor; [right; eexists; reflexivity | constructor]. }
  assert (H3 : fst (distribute Sample.env 3 Sample.invalid_completion_machine)
               <> OutOfFuel)
    by (vm_compute; discriminate).
  split; [exact H1|]. split; [exact H2|]. split; [exact H3|].
  pose proof (proj2 (invalid_completion_entry_fails_after_batches Sample.env)
                3%nat Sample.invalid_completion_machine
                (snd (distribute Sample.env 3 Sample.invalid_completion_machine))
                Sample.done_requests (VInt 7) [] [] []
                (fst (distribute Sample.env 3 Sample.invalid_completion_machine))
                H1 H2 (surjective_pairing _) H3) as H.
  exact H.
Defined.

(** X6 on a block of three calls, without [sbatch]. *)
Lemma with_block_runs_every_invocation_locally_witness :
  with_AutoBatch Sample.env 3 None (Some 2)
    (add_all Sample.env Sample.three_requests) []
  = (Return tt,
     snd (with_AutoBatch Sample.env 3 None (Some 2)
            (add_all Sample.env Sample.three_requests) [])) /\
  local_calls
    (trace (snd (with_AutoBatch Sample.env 3 None (Some 2)
                   (add_all Sample.env Sample.three_requests) [])))
  ≡ₚ local_calls [] ++ map request_call Sample.three_requests.
Proof.
  assert (H1 : with_AutoBatch Sample.env 3 None (Some 2)
                 (add_all Sample.env Sample.three_requests) []
               = (Return tt,
                  snd (with_AutoBatch Sample.env 3 None (Some 2)
                         (add_all Sample.env Sample.three_requests) [])))
    by (vm_compute; reflexivity).
  split; [exact H1|].
  exact (proj1 (with_block_runs_every_invocation_locally Sample.env 3%nat
                  (Some 2) Sample.three_requests [] _ H1)).
Defined.

(** X7 on the same block, with [sbatch]. *)
Lemma with_block_submits_every_invocation_witness :
  "/usr/bin/sbatch"%string <> ""%string /\
  with_AutoBatch Sample.env 3 (Some "/usr/bin/sbatch"%string) (Some 2)
    (add_all Sample.env Sample.three_requests) []
  = (Return tt,
     snd (with_AutoBatch Sample.env 3 (Some "/usr/bin/sbatch"%string) (Some 2)
            (add_all Sample.env Sample.three_requests) [])) /\
  batch_calls
    (trace (snd (with_AutoBatch Sample.env 3 (Some "/usr/bin/sbatch"%string)
                   (Some 2) (add_all Sample.env Sample.three_requests) [])))
  ≡ₚ batch_calls [] ++ map request_call Sample.three_requests.
Proof.
  assert (H1 : "/usr/bin/sbatch"%string <> ""%string) by discriminate.
  assert (H2 : with_AutoBatch Sample.env 3 (Some "/usr/bin/sbatch"%string)
                 (Some 2) (add_all Sample.env Sample.three_requests) []
               = (Return tt,
                  snd (with_AutoBatch Sample.env 3
                         (Some "/usr/bin/sbatch"%string) (Some 2)
                         (add_all Sample.env Sample.three_requests) [])))
    by (vm_compute; reflexivity).
  split; [exact H1|]. split; [exact H2|].
  exact (proj1 (with_block_submits_every_invocation Sample.env 3%nat
                  "/usr/bin/sbatch"%string (Some 2) Sample.three_requests []
                  _ H1 H2)).
Defined.

(** X8 on five calls under one configuration and a bound of two: three
    jobs. *)
Lemma distribute_job_count_witness :
  max_batch_size (Sample.five_session (Some 2)) = Some 2 /\
  1 <= 2 /\
  Forall (fun b => (length (bucket_calls b) <= 5)%nat)
         (_tasks (Sample.five_session (Some 2))) /\
  distribute Sample.env 5 {| self := Sample.five_session (Some 2); trace := [] |}
  = (Return [101; 102; 103],
     snd (distribute Sample.env 5
            {| self := Sample.five_session (Some 2); trace := [] |})) /\
  Z.of_nat (length [101; 102; 103])
  = foldr Z.add 0
      (map (fun b => jobs_for 2 (length (bucket_calls b)))
           (_tasks (Sample.five_session (Some 2)))).
Proof.
  assert (H1 : max_batch_size (Sample.five_session (Some 2)) = Some 2)
    by reflexivity.
  assert (H2 : 1 <= 2) by lia.
  assert (H3 : Forall (fun b => (length (bucket_calls b) <= 5)%nat)
                      (_tasks (Sample.five_session (Some 2))))
    by (vm_compute; repeat constructor).
  assert (H4 : distribute Sample.env 5
                 {| self := Sample.five_session (Some 2); trace := [] |}
               = (Return [101; 102; 103],
                  snd (distribute Sample.env 5
                         {| self := Sample.five_session (Some 2);
                            trace := [] |})))
    by (vm_compute; reflexivity).
  split; [exact H1|]. split; [exact H2|]. split; [exact H3|].
  split; [exact H4|].
  exact (proj1 (distribute_job_count Sample.env 2
                  (Sample.five_session (Some 2)) [] 5%nat [101; 102; 103] _
                  H1 H2 H3 H4)).
Defined.

(** X9 on five calls under one configuration and a bound of five. *)
Lemma bound_above_every_group_is_no_bound_witness :
  Forall (fun b => bucket_calls b <> [] /\
                   Z.of_nat (length (bucket_calls b)) <= 5)
         (_tasks (Sample.five_session None)) /\
  (1 <= 1)%nat /\
  fst (distribute Sample.env 1
         {| self := with_bound (Sample.five_session None) (Some 5);
            trace := [] |})
  = fst (distribute Sample.env 1
           {| self := with_bound (Sample.five_session None) None;
              trace := [] |}).
Proof.
  assert (H1 : Forall (fun b => bucket_calls b <> [] /\
                                Z.of_nat (length (bucket_calls b)) <= 5)
                      (_tasks (Sample.five_session None))).
  { vm_compute. constructor; [|constructor].
    split; [discriminate | discriminate]. }
  assert (H2 : (1 <= 1)%nat) by lia.
  split; [exact H1|]. split; [exact H2|].
  exact (proj1 (bound_above_every_group_is_no_bound Sample.env 5
                  (Sample.five_session None) [] 1%nat H1 H2)).
Defined.

(** X11 on a session with two completion entries and no group. *)
Lemma distribute_without_groups_submits_completion_entries_witness :
  _tasks (self Sample.completion_machine) = [] /\
  _on_completion (self Sample.completion_machine)
  = map completion_entry Sample.completion_requests /\
  Forall (fun r => plain_dependency (fst (fst r))) Sample.completion_requests /\
  exists deps : list string,
    distribute Sample.env 0 Sample.completion_machine
    = (Return [],
       {| self := self Sample.completion_machine;
          trace := trace Sample.completion_machine ++
            zip_with (fun r dep =>
                        DispatchSingle (request_call r)
                          [("dependency"%string, VStr dep)])
                     Sample.completion_requests deps |}) /\
    Forall2 (fun r dep =>
               (dict_get "dependency" (special_slurm_opts (fst (fst r))) = None \/
                dict_get "dependency" (special_slurm_opts (fst (fst r)))
                = Some (VStr "") ->
                dep = "afterany:"%string) /\
               (forall d,
                  dict_get "dependency" (special_slurm_opts (fst (fst r)))
                  = Some (VStr d) ->
                  d <> ""%string -> dep = (d ++ ",afterany:")%string))
            Sample.completion_requests deps.
Proof.
  assert (H1 : _tasks (self Sample.completion_machine) = []) by reflexivity.
  assert (H2 : _on_completion (self Sample.completion_machine)
               = map completion_entry Sample.completion_requests)
    by reflexivity.
  assert (H3 : Forall (fun r => plain_dependency (fst (fst r)))
                      Sample.completion_requests).
  { constructor; [right; eexists; reflexivity|].
    constructor; [left; reflexivity | constructor]. }
  split; [exact H1|]. split; [exact H2|]. split; [exact H3|].
  exact (distribute_without_groups_submits_completion_entries Sample.env 0%nat
           Sample.completion_machine Sample.completion_requests H1 H2 H3).
Defined.

(** X12 on a block of three calls and two completion entries. *)
Lemma with_block_chains_completion_jobs_witness :
  "/usr/bin/sbatch"%string <> ""%string /\
  Forall (fun r => plain_dependency (fst (fst r))) Sample.completion_requests /\
  with_AutoBatch Sample.env 3 (Some "/usr/bin/sbatch"%string) None
    (add_all Sample.env Sample.three_requests ;;;
     register_all Sample.completion_requests) []
  = (Return tt,
     snd (with_AutoBatch Sample.env 3 (Some "/usr/bin/sbatch"%string) None
            (add_all Sample.env Sample.three_requests ;;;
             register_all Sample.completion_requests) [])) /\
  exists (batches : list event) (deps : list string),
    trace (snd (with_AutoBatch Sample.env 3 (Some "/usr/bin/sbatch"%string) None
                  (add_all Sample.env Sample.three_requests ;;;
                   register_all Sample.completion_requests) []))
    = ([] ++ batches) ++
      zip_with (fun r dep =>
                  DispatchSingle (request_call r)
                    [("dependency"%string, VStr dep)])
               Sample.completion_requests deps /\
    Forall is_batch batches /\
    batch_calls batches ≡ₚ map request_call Sample.three_requests /\
    Forall2 (fun r dep =>
               composed_dependency (assigned_ids Sample.env [] batches)
                 (fst (fst r)) dep)
            Sample.completion_requests deps.
Proof.
  assert (H1 : "/usr/bin/sbatch"%string <> ""%string) by discriminate.
  assert (H2 : Forall (fun r => plain_dependency (fst (fst r)))
                      Sample.completion_requests).
  { constructor; [right; eexists; reflexivity|].
    constructor; [left; reflexivity | constructor]. }
  assert (H3 : with_AutoBatch Sample.env 3 (Some "/usr/bin/sbatch"%string) None
                 (add_all Sample.env Sample.three_requests ;;;
                  register_all Sample.completion_requests) []
               = (Return tt,
                  snd (with_AutoBatch Sample.env 3
                         (Some "/usr/bin/sbatch"%string) None
                         (add_all Sample.env Sample.three_requests ;;;
                          register_all Sample.completion_requests) [])))
    by (vm_compute; reflexivity).
  split; [exact H1|]. split; [exact H2|]. split; [exact H3|].
  exact (with_block_chains_completion_jobs Sample.env 3%nat
           "/usr/bin/sbatch"%string None Sample.three_requests
           Sample.completion_requests [] _ H1 H2 H3).
Defined.

(** X13 on a function whose [dependency] option is zero. *)
Lemma dependency_option_by_truth_value_witness :
  dict_get "dependency" (special_slurm_opts Sample.zero_dep) = Some (VInt 0) /\
  truthy (VInt 0) = false /\
  completion_task Sample.env [10; 11]
    (ObjSlurmFunction Sample.zero_dep, [], []) (Sample.start None)
  = (Return tt,
     {| self := self (Sample.start None);
        trace := trace (Sample.start None) ++
          [DispatchSingle (request_call (Sample.zero_dep, [], []))
             [("dependency"%string,
               VStr ("afterany:" ++ str_join ":" (map str_of_int [10; 11])))]] |}).
Proof.
  assert (H1 : dict_get "dependency" (special_slurm_opts Sample.zero_dep)
               = Some (VInt 0))
    by reflexivity.
  assert (H2 : truthy (VInt 0) = false) by reflexivity.
  split; [exact H1|]. split; [exact H2|].
  exact (proj1 (dependency_option_by_truth_value Sample.env [10; 11]
                  Sample.zero_dep [] [] (Sample.start None) (VInt 0) H1) H2).
Defined.
